(** * osm2rdf: a shallow embedding of the element transform and the writer

    Sources: [src/src/parser.rs], [src/src/str_builder.rs], [src/src/utils.rs].
    Rust [&str]/[String] values are modelled as Stdlib [string] (one [ascii]
    per UTF-8 byte); [i64]/[u64]/[usize]/[u32] values as [Z] with the
    wrap-around of the release build written out where the code adds. *)

From Stdlib Require Import ZArith Ascii String List Lia.
From Stdlib Require Import Numbers.DecimalString Numbers.DecimalZ.
From stdpp Require Import base gmap strings list.

Import ListNotations.
Open Scope Z_scope.

(* ------------------------------------------------------------------ *)
(** ** Characters and small string helpers *)

Definition chr (n : nat) : string := String (ascii_of_nat n) EmptyString.

(** The double quote and the newline, built from their codes. *)
Definition dq : string := chr 34.
Definition nl : string := chr 10.

Definition code (c : ascii) : Z := Z.of_nat (nat_of_ascii c).

Definition is_digit (c : ascii) : bool := (48 <=? code c) && (code c <=? 57).
Definition is_nonzero_digit (c : ascii) : bool := (49 <=? code c) && (code c <=? 57).
Definition is_lower (c : ascii) : bool := (97 <=? code c) && (code c <=? 122).
Definition is_upper (c : ascii) : bool := (65 <=? code c) && (code c <=? 90).

(** [[0-9a-zA-Z_]] *)
Definition is_word (c : ascii) : bool :=
  is_digit c || is_lower c || is_upper c || (code c =? 95).

(** [[-:0-9a-zA-Z_]] *)
Definition is_word_inner (c : ascii) : bool :=
  is_word c || (code c =? 45) || (code c =? 58).

(** The string of the given bytes. *)
Fixpoint bytes (l : list nat) : string :=
  match l with
  | [] => EmptyString
  | n :: r => String (ascii_of_nat n) (bytes r)
  end.

(** Whitespace of the regex class [\s] (Unicode mode) and of
    [char::is_whitespace], which [str::trim] strips: the characters with
    the Unicode property White_Space, as their UTF-8 encodings. They are
    U+0009..U+000D, U+0020, U+0085, U+00A0, U+1680, U+2000..U+200A,
    U+2028, U+2029, U+202F, U+205F and U+3000. Strings are the UTF-8 bytes
    of a Rust [&str]; no encoding is a prefix of another. *)
Definition ws_chars : list string :=
  map bytes
    [[9]; [10]; [11]; [12]; [13]; [32]; [194; 133]; [194; 160]; [225; 154; 128];
     [226; 128; 128]; [226; 128; 129]; [226; 128; 130]; [226; 128; 131]; [226; 128; 132];
     [226; 128; 133]; [226; 128; 134]; [226; 128; 135]; [226; 128; 136]; [226; 128; 137];
     [226; 128; 138]; [226; 128; 168]; [226; 128; 169]; [226; 128; 175]; [226; 129; 159];
     [227; 128; 128]]%nat.

Definition is_Q (c : ascii) : bool := code c =? 81.
Definition is_semi (c : ascii) : bool := code c =? 59.

Fixpoint str_forallb (f : ascii -> bool) (s : string) : bool :=
  match s with
  | EmptyString => true
  | String c r => f c && str_forallb f r
  end.

Fixpoint str_prefix (p s : string) : bool :=
  match p, s with
  | EmptyString, _ => true
  | String a p', String b s' => Ascii.eqb a b && str_prefix p' s'
  | String _ _, EmptyString => false
  end.

(** [str::contains] *)
Fixpoint str_contains (s pat : string) : bool :=
  str_prefix pat s ||
  match s with
  | EmptyString => false
  | String _ r => str_contains r pat
  end.

(** [str::split(c)]: the pieces between occurrences of [c]. *)
Fixpoint str_split (sep : ascii) (s : string) : list string :=
  match s with
  | EmptyString => [EmptyString]
  | String c r =>
      if Ascii.eqb c sep then EmptyString :: str_split sep r
      else match str_split sep r with
           | [] => [String c EmptyString]
           | p :: ps => String c p :: ps
           end
  end.

(** Strips the leading characters whose encodings are in [ws], reading
    the bytes one by one: [pre] holds the bytes read so far of a character
    that may still be one of them. At the first character that is not, the
    rest from that character on is returned. *)
Fixpoint strip_ws (ws : list string) (pre s : string) : string :=
  match s with
  | EmptyString => pre
  | String c r =>
      let pre' := pre +:+ String c EmptyString in
      if existsb (String.eqb pre') ws then strip_ws ws EmptyString r
      else if existsb (str_prefix pre') ws then strip_ws ws pre' r
      else pre' +:+ r
  end.

(** [str::trim_start] *)
Definition trim_start (s : string) : string := strip_ws ws_chars EmptyString s.

Fixpoint str_rev (s : string) : string :=
  match s with
  | EmptyString => EmptyString
  | String c r => str_rev r +:+ String c EmptyString
  end.

(** [str::trim]: [trim_start], then the same from the end, on the reversed
    bytes with the reversed encodings (the last character of a UTF-8
    string ends with one of them exactly when it is whitespace). *)
Definition trim (s : string) : string :=
  str_rev (strip_ws (map str_rev ws_chars) EmptyString (str_rev (trim_start s))).

(** [str::replace(' ', "_")] *)
Fixpoint replace_space (s : string) : string :=
  match s with
  | EmptyString => EmptyString
  | String c r => (if code c =? 32 then "_" else String c EmptyString) +:+ replace_space r
  end.

Fixpoint join (sep : string) (xs : list string) : string :=
  match xs with
  | [] => EmptyString
  | [x] => x
  | x :: r => x +:+ sep +:+ join sep r
  end.

(** Decimal rendering of an integer ([Display] for [i64]/[i32]). *)
Definition z_to_string (z : Z) : string := NilEmpty.string_of_int (Z.to_int z).

(** Lowercase and uppercase hexadecimal digits. *)
Definition hex_digit (upper : bool) (n : Z) : string :=
  if n <? 10 then chr (Z.to_nat (48 + n))
  else chr (Z.to_nat ((if upper then 55 else 87) + n)).

(** Zero-padded decimal of width [w] ([{:0w}] for a non-negative value). *)
Fixpoint pad_dec (w : nat) (n : Z) : string :=
  match w with
  | O => EmptyString
  | S w' => pad_dec w' (n / 10) +:+ chr (Z.to_nat (48 + n mod 10))
  end.

(* ------------------------------------------------------------------ *)
(** ** [XsdStr]: [JsonValue::from(s).dump()] of the [json] crate

    The dump writes a double quote, then every byte of [s], escaping
    the double quote and the backslash with a backslash, the bytes 8, 9,
    10, 12, 13 as [\b \t \n \f \r], and the other bytes below 0x20 as
    [\u] followed by four lowercase hex digits; then a double quote. DEL
    (0x7F) and the bytes from 0x80 on are written as they are. *)

Definition json_escape_char (c : ascii) : string :=
  let n := code c in
  let bs := chr 92 in
  if n =? 34 then bs +:+ dq
  else if n =? 92 then bs +:+ bs
  else if n =? 8 then bs +:+ "b"
  else if n =? 9 then bs +:+ "t"
  else if n =? 10 then bs +:+ "n"
  else if n =? 12 then bs +:+ "f"
  else if n =? 13 then bs +:+ "r"
  else if n <? 32 then
    bs +:+ "u00" +:+ hex_digit false (n / 16) +:+ hex_digit false (n mod 16)
  else String c EmptyString.

Fixpoint json_escape (s : string) : string :=
  match s with
  | EmptyString => EmptyString
  | String c r => json_escape_char c +:+ json_escape r
  end.

Definition XsdStr (s : string) : string := dq +:+ json_escape s +:+ dq.

(** [XsdRaw(a, b)] displays as [a:b]. *)
Definition XsdRaw (a b : string) : string := a +:+ ":" +:+ b.

(** [XsdIter]: the items joined by commas. *)
Definition XsdIter (items : list string) : string := join "," items.

(** [PERCENT_ENC_SET] of utils.rs: the controls (below 0x20 and 0x7F) and
    [; @ $ ! * ( ) , / ~ :] and [#]; [utf8_percent_encode] also encodes
    every non-ASCII byte, as [%] and two uppercase hex digits. *)
Definition percent_enc (c : ascii) : bool :=
  let n := code c in
  (n <? 32) || (127 <=? n) ||
  existsb (Z.eqb n) [59; 64; 36; 33; 42; 40; 41; 44; 47; 126; 58; 35].

Fixpoint utf8_percent_encode (s : string) : string :=
  match s with
  | EmptyString => EmptyString
  | String c r =>
      (if percent_enc c
       then "%" +:+ hex_digit true (code c / 16) +:+ hex_digit true (code c mod 16)
       else String c EmptyString) +:+ utf8_percent_encode r
  end.

(** [XsdWikipedia { lang, title }] *)
Definition XsdWikipedia (lang title : string) : string :=
  "<https://" +:+ lang +:+ ".wikipedia.org/wiki/" +:+ title +:+ ">".

(* ------------------------------------------------------------------ *)
(** ** The regular expressions of parser.rs *)

(** [RE_SIMPLE_LOCAL_NAME]: [^[0-9a-zA-Z_]([-:0-9a-zA-Z_]{0,58}[0-9a-zA-Z_])?$].
    A word character, then optionally at most 58 inner characters closed
    by a word character: 1 to 60 characters in all. *)
Fixpoint local_name_tail (fuel : nat) (s : string) : bool :=
  match s with
  | EmptyString => false
  | String c EmptyString => is_word c
  | String c r =>
      match fuel with
      | O => false
      | S f => is_word_inner c && local_name_tail f r
      end
  end.

Definition RE_SIMPLE_LOCAL_NAME (s : string) : bool :=
  match s with
  | EmptyString => false
  | String c EmptyString => is_word c
  | String c r => is_word c && local_name_tail 58 r
  end.

(** [RE_WIKIDATA_VALUE]: [^Q[1-9][0-9]{0,18}$]. *)
Definition RE_WIKIDATA_VALUE (s : string) : bool :=
  match s with
  | String q (String d r) =>
      is_Q q && is_nonzero_digit d && str_forallb is_digit r
      && (Z.of_nat (String.length r) <=? 18)
  | _ => false
  end.

(** [RE_WIKIDATA_MULTI_VALUE]:
    [^Q[1-9][0-9]{0,18}(\s*;\s*Q[1-9][0-9]{0,18})+$], run as the automaton
    of the expression on the UTF-8 bytes. [QDigits k]: inside an
    identifier, [k] more digits allowed; [QWs false pre]: in the [\s*]
    before a semicolon, [QWs true pre]: in the one after it, before the next
    [Q]; [pre] holds the bytes read so far of a whitespace character. The
    flag counts the repetitions. *)
Inductive qstate := QStart | QFirst | QDigits (k : nat) | QWs (after : bool) (pre : string) | QFail.

(** A byte of a character of [\s]. *)
Definition ws_step (after : bool) (pre : string) (c : ascii) : qstate :=
  let pre' := pre +:+ String c EmptyString in
  if existsb (String.eqb pre') ws_chars then QWs after EmptyString
  else if existsb (str_prefix pre') ws_chars then QWs after pre'
  else QFail.

Definition qstep (st : qstate) (c : ascii) : qstate :=
  match st with
  | QStart => if is_Q c then QFirst else QFail
  | QFirst => if is_nonzero_digit c then QDigits 18 else QFail
  | QDigits k =>
      if is_digit c then match k with O => QFail | S k' => QDigits k' end
      else if is_semi c then QWs true EmptyString
      else ws_step false EmptyString c
  | QWs false EmptyString => if is_semi c then QWs true EmptyString else ws_step false EmptyString c
  | QWs true EmptyString => if is_Q c then QFirst else ws_step true EmptyString c
  | QWs after pre => ws_step after pre c
  | QFail => QFail
  end.

Fixpoint qrun (st : qstate) (semi : bool) (s : string) : bool :=
  match s with
  | EmptyString => match st with QDigits _ => semi | _ => false end
  | String c r => qrun (qstep st c) (semi || is_semi c) r
  end.

Definition RE_WIKIDATA_MULTI_VALUE (s : string) : bool := qrun QStart false s.

(** [RE_WIKIPEDIA_VALUE]: [^([-a-z]+):(.+)$]. The class has no [:], so the
    first group is the longest prefix of [[-a-z]] characters; [.] is any
    byte but the newline. Returns the two captures. *)
Fixpoint wiki_lang (acc : string) (s : string) : option (string * string) :=
  match s with
  | EmptyString => None
  | String c r =>
      if is_lower c || (code c =? 45) then wiki_lang (acc +:+ String c EmptyString) r
      else if (code c =? 58) && negb (String.eqb acc EmptyString) then
        if negb (String.eqb r EmptyString) && str_forallb (fun x => negb (code x =? 10)) r
        then Some (acc, r) else None
      else None
  end.

Definition RE_WIKIPEDIA_VALUE (s : string) : option (string * string) := wiki_lang EmptyString s.

(* ------------------------------------------------------------------ *)
(** ** The text buffer *)

(** Modelled from the spec: [StringBuf::push_value], which parser.rs calls,
    is not under src/. The spec's encoder emits one clause per call; its
    sibling [StringBuf::add_value] in str_builder.rs writes the clause as
    [writeln!(self, "{predicate} {value};")], which is what is followed. *)
Definition push_value (buf pred value : string) : string :=
  buf +:+ pred +:+ " " +:+ value +:+ ";" +:+ nl.

(* ------------------------------------------------------------------ *)
(** ** Data model of utils.rs *)

Inductive Element := Node | Way | Relation.

(** [impl Display for Element] *)
Definition element_display (e : Element) : string :=
  match e with
  | Node => "osmnode"
  | Way => "osmway"
  | Relation => "osmrel"
  end.

(** [XsdElement] *)
Definition XsdElement (e : Element) : string :=
  dq +:+ (match e with Node => "n" | Way => "w" | Relation => "r" end) +:+ dq.

Inductive Statement :=
  | Skip
  | Delete (elem : Element) (id : Z)
  | Create (elem : Element) (id : Z) (ts : Z) (val : string).

(** [u64] addition, wrapping as in a release build. *)
Definition add_u64 (a b : Z) : Z := (a + b) mod 2 ^ 64.

Record Stats := mkStats {
  added_nodes : Z;
  added_rels : Z;
  added_ways : Z;
  skipped_nodes : Z;
  deleted_nodes : Z;
  deleted_rels : Z;
  deleted_ways : Z;
  blocks : Z
}.

(** [Stats::default()] *)
Definition stats_default : Stats := mkStats 0 0 0 0 0 0 0 0.

(** [Stats::combine(&mut self, other)] *)
Definition combine (s other : Stats) : Stats :=
  mkStats (add_u64 s.(added_nodes) other.(added_nodes))
          (add_u64 s.(added_rels) other.(added_rels))
          (add_u64 s.(added_ways) other.(added_ways))
          (add_u64 s.(skipped_nodes) other.(skipped_nodes))
          (add_u64 s.(deleted_nodes) other.(deleted_nodes))
          (add_u64 s.(deleted_rels) other.(deleted_rels))
          (add_u64 s.(deleted_ways) other.(deleted_ways))
          (add_u64 s.(blocks) 1).

(** The per-field increments of the parser, [self.stats.<field> += 1]. *)
Definition incr_added_nodes (s : Stats) : Stats :=
  mkStats (add_u64 s.(added_nodes) 1) s.(added_rels) s.(added_ways) s.(skipped_nodes)
          s.(deleted_nodes) s.(deleted_rels) s.(deleted_ways) s.(blocks).
Definition incr_added_rels (s : Stats) : Stats :=
  mkStats s.(added_nodes) (add_u64 s.(added_rels) 1) s.(added_ways) s.(skipped_nodes)
          s.(deleted_nodes) s.(deleted_rels) s.(deleted_ways) s.(blocks).
Definition incr_skipped_nodes (s : Stats) : Stats :=
  mkStats s.(added_nodes) s.(added_rels) s.(added_ways) (add_u64 s.(skipped_nodes) 1)
          s.(deleted_nodes) s.(deleted_rels) s.(deleted_ways) s.(blocks).
Definition incr_deleted_nodes (s : Stats) : Stats :=
  mkStats s.(added_nodes) s.(added_rels) s.(added_ways) s.(skipped_nodes)
          (add_u64 s.(deleted_nodes) 1) s.(deleted_rels) s.(deleted_ways) s.(blocks).
Definition incr_deleted_rels (s : Stats) : Stats :=
  mkStats s.(added_nodes) s.(added_rels) s.(added_ways) s.(skipped_nodes)
          s.(deleted_nodes) (add_u64 s.(deleted_rels) 1) s.(deleted_ways) s.(blocks).

(* ------------------------------------------------------------------ *)
(** ** [to_utc] and the chrono calls it makes

    [Utc.timestamp_opt(secs, nsecs)] builds the instant [secs] seconds and
    [nsecs] nanoseconds after the epoch; it is [None] (and the [unwrap] of
    [to_utc] panics) when [nsecs >= 2_000_000_000] or when the date falls
    outside chrono's years [-262144 ..= 262143]. *)

Record DateTime := mkDateTime { dt_secs : Z; dt_nsecs : Z }.

(** Proleptic Gregorian (year, month, day) of a day count from 1970-01-01. *)
Definition civil_from_days (days : Z) : Z * Z * Z :=
  let z := days + 719468 in
  let era := z / 146097 in
  let doe := z - era * 146097 in
  let yoe := (doe - doe / 1460 + doe / 36524 - doe / 146096) / 365 in
  let doy := doe - (365 * yoe + yoe / 4 - yoe / 100) in
  let mp := (5 * doy + 2) / 153 in
  let d := doy - (153 * mp + 2) / 5 + 1 in
  let m := if mp <? 10 then mp + 3 else mp - 9 in
  let y := yoe + era * 400 in
  ((if m <=? 2 then y + 1 else y), m, d).

Definition timestamp_opt (secs nsecs : Z) : option DateTime :=
  let '(y, _, _) := civil_from_days (secs / 86400) in
  if (nsecs <? 2000000000) && (-262144 <=? y) && (y <=? 262143)
  then Some (mkDateTime secs nsecs) else None.

(** [to_utc(milli_timestamp)]: [/] and [%] of [i64] truncate toward zero;
    [as u32] keeps the low 32 bits. [None] is the panic of [unwrap]. *)
Definition to_utc (milli_timestamp : Z) : option DateTime :=
  timestamp_opt (Z.quot milli_timestamp 1000) (Z.rem milli_timestamp 1000 mod 2 ^ 32).

(** The instant a [DateTime] denotes, in nanoseconds since the epoch. *)
Definition dt_instant_ns (dt : DateTime) : Z := dt.(dt_secs) * 1000000000 + dt.(dt_nsecs).

(** chrono's [Display] of [DateTime<Utc>]: [YYYY-MM-DD HH:MM:SS], the
    fraction in 3, 6 or 9 digits when non-zero, then [ UTC]. A leap
    nanosecond count (at least one second) shows as second 60. A year
    in 0..9999 is written in four digits, any other with [{:+05}]: its
    sign, then at least four digits. *)
Definition year_display (y : Z) : string :=
  if (0 <=? y) && (y <=? 9999) then pad_dec 4 y
  else (if y <? 0 then "-" else "+") +:+
       (if Z.abs y <=? 9999 then pad_dec 4 (Z.abs y) else z_to_string (Z.abs y)).

Definition dt_display (dt : DateTime) : string :=
  let days := dt.(dt_secs) / 86400 in
  let sod := dt.(dt_secs) mod 86400 in
  let '(y, m, d) := civil_from_days days in
  let '(sec, nano) :=
    if 1000000000 <=? dt.(dt_nsecs) then (sod mod 60 + 1, dt.(dt_nsecs) - 1000000000)
    else (sod mod 60, dt.(dt_nsecs)) in
  let frac :=
    if nano =? 0 then EmptyString
    else if nano mod 1000000 =? 0 then "." +:+ pad_dec 3 (nano / 1000000)
    else if nano mod 1000 =? 0 then "." +:+ pad_dec 6 (nano / 1000)
    else "." +:+ pad_dec 9 nano in
  year_display y +:+ "-" +:+ pad_dec 2 m +:+ "-" +:+ pad_dec 2 d +:+ " " +:+
  pad_dec 2 (sod / 3600) +:+ ":" +:+ pad_dec 2 (sod mod 3600 / 60) +:+ ":" +:+
  pad_dec 2 sec +:+ frac +:+ " UTC".

(** [XsdDateTime(ts)] *)
Definition XsdDateTime (ts : Z) : option string :=
  match to_utc ts with
  | Some dt => Some (dq +:+ dt_display dt +:+ dq +:+ "^^xsd:dateTime")
  | None => None
  end.

(** [XsdInteger(v)] *)
Definition XsdInteger (v : Z) : string := dq +:+ z_to_string v +:+ dq +:+ "^^xsd:integer".

(** Removes the last byte ([String::pop]). *)
Definition pop (s : string) : string := str_rev (match str_rev s with
                                                 | EmptyString => EmptyString
                                                 | String _ r => r end).

(** Modelled from the spec: [StringBuf::push_metadata], which parser.rs
    calls, is not under src/. The spec's [render_metadata] emits the
    version as a typed integer, the user as a quoted string, the
    timestamp as a typed instant and the changeset as a typed integer, and
    ends the block with the statement terminator; this follows
    [StringBuf::finalize] of str_builder.rs, which does exactly that
    (two [pop]s of the trailing [";\n"], then [".\n"]). *)
Definition push_metadata (buf : string) (version : Z) (user : string) (ts changeset : Z)
  : option string :=
  match XsdDateTime ts with
  | None => None
  | Some t =>
      let b := push_value buf "osmm:version" (XsdInteger version) in
      let b := push_value b "osmm:user" (XsdStr user) in
      let b := push_value b "osmm:timestamp" t in
      let b := push_value b "osmm:changeset" (XsdInteger changeset) in
      Some (pop (pop b) +:+ "." +:+ nl)
  end.

(* ------------------------------------------------------------------ *)
(** ** [Parser::push_all_tags] *)

(** The body of the [for (key, val) in tags] loop; each [continue] ends
    the iteration after its [push_value]. *)
Definition push_tag (value : string) (key val : string) : string :=
  if String.eqb key "created_by" then value
  else if negb (RE_SIMPLE_LOCAL_NAME key) then
    (* Record any unusual tag name in a "osmm:badkey" statement *)
    push_value value "osmm:badkey" (XsdStr val)
  else
    let prop := XsdRaw "osmt" key in
    if str_contains key "wikidata" then
      if RE_WIKIDATA_VALUE val then push_value value prop (XsdRaw "wd" val)
      else if RE_WIKIDATA_MULTI_VALUE val then
        push_value value prop
          (XsdIter (map (fun v => XsdRaw "wd" (trim v)) (str_split ";"%char val)))
      else push_value value prop (XsdStr val)
    else if str_contains key "wikipedia" then
      match RE_WIKIPEDIA_VALUE val with
      | Some (lang, title) =>
          push_value value prop (XsdWikipedia lang (utf8_percent_encode (replace_space title)))
      | None => push_value value prop (XsdStr val)
      end
    else push_value value prop (XsdStr val).

Fixpoint push_all_tags (value : string) (tags : list (string * string)) : string :=
  match tags with
  | [] => value
  | (key, val) :: rest => push_all_tags (push_tag value key val) rest
  end.

(* ------------------------------------------------------------------ *)
(** ** Elements as the decoder yields them *)

(** [osmpbf::Info]; the decoder's [Option]/[Result] wrappers, which
    [push_info] unwraps, are taken as present. *)
Record Info := mkInfo {
  deleted : bool;
  version : Z;
  user : string;
  milli_timestamp : Z;
  changeset : Z
}.

Inductive RelMemberType := MNode | MWay | MRelation.

(** [osmpbf::RelMember]; [role] is the string [mbr.role().unwrap()] reads. *)
Record RelMember := mkRelMember {
  member_id : Z;
  member_type : RelMemberType;
  role : string
}.

Record RelationElem := mkRelation {
  rel_id : Z;
  rel_tags : list (string * string);
  rel_info : Info;
  rel_members : list RelMember
}.

(** [XsdRelMember] *)
Definition XsdRelMember (m : RelMember) : string :=
  (match m.(member_type) with
   | MNode => "osmnode:"
   | MWay => "osmway:"
   | MRelation => "osmrel:"
   end) +:+ z_to_string m.(member_id).

(** [Parser::push_info]: [None] is a panic inside [push_metadata]. *)
Definition push_info (value : string) (info : Info) : option (string * Z) :=
  let ts := info.(milli_timestamp) in
  match push_metadata value info.(version) info.(user) ts info.(changeset) with
  | Some v => Some (v, ts)
  | None => None
  end.

(** The body of [for mbr in rel.members()] in [Parser::on_relation]. *)
Definition push_member (value : string) (mbr : RelMember) : string :=
  let value := push_value value "osmm:has" (XsdRelMember mbr) in
  push_value value (XsdRelMember mbr) (XsdStr mbr.(role)).

(* ------------------------------------------------------------------ *)
(** ** The per-block parser *)

Section Parser.

(** [f64] coordinates and their [Display]; floating point is not
    modelled, only where the rendered numbers are placed. *)
Variable f64 : Type.
Variable f64_display : f64 -> string.

(** [Parser { parent_stats, stats, cache }]; the node cache is a map from
    the [usize] key to the stored [(lat, lon)]. *)
Record Parser := mkParser {
  stats : Stats;
  cache : gmap Z (f64 * f64)
}.

(** [cache.set_lat_lon(id as usize, lat, lon)]: [as usize] keeps the low
    64 bits of the [i64] id. *)
Definition set_lat_lon (c : gmap Z (f64 * f64)) (id : Z) (lat lon : f64) : gmap Z (f64 * f64) :=
  <[id mod 2 ^ 64 := (lat, lon)]> c.

(** [XsdPoint { lat, lon }] *)
Definition XsdPoint (lat lon : f64) : string :=
  dq +:+ "Point(" +:+ f64_display lon +:+ " " +:+ f64_display lat +:+ ")" +:+ dq
  +:+ "^^geo:wktLiteral".

(** [Parser::process_node] *)
Definition process_node (p : Parser) (is_deleted : bool) (id : Z)
    (tags : list (string * string)) (lat lon : f64) : Statement * Parser :=
  if is_deleted then
    (Delete Node id, mkParser (incr_deleted_nodes p.(stats)) p.(cache))
  else
    let cache' := set_lat_lon p.(cache) id lat lon in
    let value := push_all_tags EmptyString tags in
    if String.eqb value EmptyString then
      (Skip, mkParser (incr_skipped_nodes p.(stats)) cache')
    else
      let value := push_value value "osmm:loc" (XsdPoint lat lon) in
      let value := push_value value "osmm:type" (XsdElement Node) in
      (Create Node id 0 value, mkParser (incr_added_nodes p.(stats)) cache').

(** [Parser::on_relation]; [None] is a panic. *)
Definition on_relation (p : Parser) (rel : RelationElem) : option (Statement * Parser) :=
  let info := rel.(rel_info) in
  if info.(deleted) then
    Some (Delete Way rel.(rel_id), mkParser (incr_deleted_rels p.(stats)) p.(cache))
  else
    let value := push_all_tags EmptyString rel.(rel_tags) in
    let value := push_value value "osmm:type" (XsdElement Relation) in
    match push_info value info with
    | None => None
    | Some (value, ts) =>
        let value := fold_left push_member rel.(rel_members) value in
        Some (Create Relation rel.(rel_id) ts value,
              mkParser (incr_added_rels p.(stats)) p.(cache))
    end.

End Parser.

Arguments mkParser {f64}.
Arguments stats {f64}.
Arguments cache {f64}.

(* ------------------------------------------------------------------ *)
(** ** The totalizer of [parse_with_cache]

    Every [Parser] is dropped when its block is done; its [Drop] takes its
    [stats] and runs [parent_stats.lock().unwrap().combine(stats)]. The
    total after a sequence of dropped parsers, in the order the locks were
    taken. *)
Definition merge_all (total : Stats) (worker_stats : list Stats) : Stats :=
  fold_left combine worker_stats total.

(* ------------------------------------------------------------------ *)
(** ** [start_writer_thread]

    The writer's state: the open encoder (its file index and the text
    written to it so far), the finished files in the order they were
    created, [size], [file_index] and [oldest_ts]. File contents are the
    uncompressed text given to the [GzEncoder]. *)
Record WriterState := mkWriterState {
  encoder : option (Z * string);
  finished : list (Z * string);
  size : Z;
  file_index : Z;
  oldest_ts : Z
}.

(** [AtomicU32::new(0)], [AtomicI64::new(0)], [None], [0_usize]. *)
Definition writer_init : WriterState := mkWriterState None [] 0 0 0.

(** [new_gz_file]: [file_index.fetch_add(1)] returns the index of the new
    file; the [u32] counter wraps. The file starts empty. *)
Definition new_gz_file (file_index : Z) : (Z * string) * Z :=
  ((file_index, EmptyString), (file_index + 1) mod 2 ^ 32).

(** [writeln!(enc, "{elem}:{id}\n{val}")] *)
Definition create_block (elem : Element) (id : Z) (val : string) : string :=
  element_display elem +:+ ":" +:+ z_to_string id +:+ nl +:+ val +:+ nl.

(** One iteration of [while let Ok(v) = receiver.recv()]. [Skip] and
    [Delete] fall through the [if let Statement::Create] untouched. *)
Definition writer_step (max_file_size : Z) (st : WriterState) (v : Statement) : WriterState :=
  match v with
  | Create elem id ts val =>
      let oldest := Z.max st.(oldest_ts) ts in
      let '(enc, fi) :=
        match st.(encoder) with
        | Some e => (e, st.(file_index))
        | None => new_gz_file st.(file_index)
        end in
      let enc := (fst enc, snd enc +:+ create_block elem id val) in
      let sz := (st.(size) + Z.of_nat (String.length val)) mod 2 ^ 64 in
      if max_file_size <? sz then
        (* encoder.take().unwrap().finish().unwrap(); size = 0; *)
        mkWriterState None (st.(finished) ++ [enc]) 0 fi oldest
      else mkWriterState (Some enc) st.(finished) sz fi oldest
  | _ => st
  end.

Definition writer_stream (max_file_size : Z) (sts : list Statement) : WriterState :=
  fold_left (writer_step max_file_size) sts writer_init.

(** The data files: the finished ones, then the one still open when the
    channel closes (finished when its encoder is dropped). *)
Definition data_files (st : WriterState) : list (Z * string) :=
  st.(finished) ++ match st.(encoder) with Some e => [e] | None => [] end.

(** The end of the writer thread: a new file, then
    [writeln!(enc, "osmroot: schema:dateModified {ts}.")] with
    [ts = to_utc(oldest_ts)]. The boolean is [true] when the [unwrap] in
    [to_utc] panics, after the trailer file was created and left empty. *)
Definition trailer (oldest : Z) : string * bool :=
  match to_utc oldest with
  | Some dt => ("osmroot: schema:dateModified " +:+ dt_display dt +:+ "." +:+ nl, false)
  | None => (EmptyString, true)
  end.

Definition writer_run (max_file_size : Z) (sts : list Statement) : list (Z * string) * bool :=
  let st := writer_stream max_file_size sts in
  let '(f, _) := new_gz_file st.(file_index) in
  let '(text, panicked) := trailer st.(oldest_ts) in
  (data_files st ++ [(fst f, text)], panicked).

(** The [ts] of the [Create] statements, in arrival order. *)
Fixpoint create_ts (sts : list Statement) : list Z :=
  match sts with
  | [] => []
  | Create _ _ ts _ :: r => ts :: create_ts r
  | _ :: r => create_ts r
  end.

(** The blocks of the [Create] statements, in arrival order. *)
Fixpoint create_blocks (sts : list Statement) : list string :=
  match sts with
  | [] => []
  | Create elem id _ val :: r => create_block elem id val :: create_blocks r
  | _ :: r => create_blocks r
  end.

Definition concat_str (xs : list string) : string := fold_right String.append EmptyString xs.

(** The counters of one element kind. *)
Definition node_count (s : Stats) : Z := s.(added_nodes) + s.(skipped_nodes) + s.(deleted_nodes).
Definition way_count (s : Stats) : Z := s.(added_ways) + s.(deleted_ways).
Definition rel_count (s : Stats) : Z := s.(added_rels) + s.(deleted_rels).

(* ------------------------------------------------------------------ *)
(** ** More of str_builder.rs *)

(** [XsdBoolean] *)
Definition XsdBoolean (b : bool) : string :=
  dq +:+ (if b then "true" else "false") +:+ dq +:+ "^^xsd:boolean".

(** [StringBuf::add_value]: [writeln!(self, "{predicate} {value};")]. *)
Definition add_value (buf predicate value : string) : string :=
  buf +:+ predicate +:+ " " +:+ value +:+ ";" +:+ nl.

(** The body of the [for (key, val) in tags] loop of [StringBuf::add_tags]. *)
Definition add_tag (buf : string) (key val : string) : string :=
  if String.eqb key "created_by" then buf
  else if negb (RE_SIMPLE_LOCAL_NAME key) then
    (* Record any unusual tag name in a "osmm:badkey" statement *)
    add_value buf "osmm:badkey" (XsdStr key)
  else
    let prop := XsdRaw "osmt" key in
    if str_contains key "wikidata" then
      if RE_WIKIDATA_VALUE val then add_value buf prop (XsdRaw "wd" val)
      else if RE_WIKIDATA_MULTI_VALUE val then
        add_value buf prop
          (XsdIter (map (fun v => XsdRaw "wd" (trim v)) (str_split ";"%char val)))
      else add_value buf prop (XsdStr val)
    else if str_contains key "wikipedia" then
      match RE_WIKIPEDIA_VALUE val with
      | Some (lang, title) =>
          add_value buf prop (XsdWikipedia lang (utf8_percent_encode (replace_space title)))
      | None => add_value buf prop (XsdStr val)
      end
    else add_value buf prop (XsdStr val).

(** [StringBuf::add_tags] *)
Fixpoint add_tags (buf : string) (tags : list (string * string)) : string :=
  match tags with
  | [] => buf
  | (key, val) :: rest => add_tags (add_tag buf key val) rest
  end.

(** [utils::ElementInfo] (field names prefixed where they would clash with
    [Info]'s). *)
Record ElementInfo := mkElementInfo {
  is_deleted : bool;
  ei_version : Z;
  ei_user : option string;
  ei_milli_timestamp : Z;
  ei_changeset : Z
}.

(** [StringBuf::finalize]; [info.version as i64] keeps the value of the
    [i32]. [None] is the panic of [to_utc] inside [XsdDateTime]'s
    [Display]. *)
Definition finalize (buf : string) (info : ElementInfo) : option string :=
  let b := add_value buf "osmm:version" (XsdInteger info.(ei_version)) in
  let b := match info.(ei_user) with
           | Some user => add_value b "osmm:user" (XsdStr user)
           | None => b
           end in
  match XsdDateTime info.(ei_milli_timestamp) with
  | None => None
  | Some t =>
      let b := add_value b "osmm:timestamp" t in
      let b := add_value b "osmm:changeset" (XsdInteger info.(ei_changeset)) in
      (* remove trailing "\n", remove trailing ";" *)
      Some (pop (pop b) +:+ "." +:+ nl)
  end.

(* ------------------------------------------------------------------ *)
(** ** File names of the writer *)

Fixpoint zeros (k : nat) : string :=
  match k with
  | O => EmptyString
  | S k' => String "0"%char (zeros k')
  end.

(** The [0] flag with width [w]: zeros on the left up to [w] characters. *)
Definition pad0 (w : nat) (s : string) : string := zeros (w - String.length s) +:+ s.

(** [format!("osm-{index:06}.ttl.gz")] of [new_gz_file]. *)
Definition gz_file_name (index : Z) : string :=
  "osm-" +:+ pad0 6 (z_to_string index) +:+ ".ttl.gz".

(* ------------------------------------------------------------------ *)
(** ** The other element handlers of parser.rs *)

Definition incr_added_ways (s : Stats) : Stats :=
  mkStats s.(added_nodes) s.(added_rels) (add_u64 s.(added_ways) 1) s.(skipped_nodes)
          s.(deleted_nodes) s.(deleted_rels) s.(deleted_ways) s.(blocks).
Definition incr_deleted_ways (s : Stats) : Stats :=
  mkStats s.(added_nodes) s.(added_rels) s.(added_ways) s.(skipped_nodes)
          s.(deleted_nodes) s.(deleted_rels) (add_u64 s.(deleted_ways) 1) s.(blocks).

(** A fallible library call; the error is kept as its [to_string()]. *)
Inductive result (A : Type) := Ok (a : A) | Err (e : string).
Arguments Ok {A}.
Arguments Err {A}.

Section ParserBlock.

Variable f64 : Type.
Variable f64_display : f64 -> string.

(** [osmpbf::Node], with its [node.info()]. *)
Record NodeElem := mkNode {
  node_id : Z;
  node_tags : list (string * string);
  node_lat : f64;
  node_lon : f64;
  node_info : Info
}.

(** [osmpbf::DenseNode], with its [node.info().unwrap()] (a
    [DenseNodeInfo] whose [user()] is [Ok]). *)
Record DenseNodeElem := mkDenseNode {
  dense_id : Z;
  dense_tags : list (string * string);
  dense_lat : f64;
  dense_lon : f64;
  dense_info : Info
}.

(** [osmpbf::Way]: id, tags, [way.info()] and the node ids of [way.refs()]. *)
Record WayElem := mkWay {
  way_id : Z;
  way_tags : list (string * string);
  way_info : Info;
  way_refs : list Z
}.

(** A [PrimitiveGroup]: [group.nodes()], [group.dense_nodes()],
    [group.ways()], [group.relations()]. *)
Record Group := mkGroup {
  g_nodes : list NodeElem;
  g_dense : list DenseNodeElem;
  g_ways : list WayElem;
  g_rels : list RelationElem
}.

(** [Parser::on_node]: [process_node], then on [Create] the [ts] is
    replaced by the one [push_info] returns. *)
Definition on_node (p : Parser f64) (node : NodeElem) : option (Statement * Parser f64) :=
  let info := node.(node_info) in
  let '(statement, p) :=
    process_node f64 f64_display p info.(deleted) node.(node_id) node.(node_tags)
      node.(node_lat) node.(node_lon) in
  match statement with
  | Create elem id _ val =>
      match push_info val info with
      | Some (val, ts) => Some (Create elem id ts val, p)
      | None => None
      end
  | _ => Some (statement, p)
  end.

(** [Parser::on_dense_node]: [process_node], then on [Create] the metadata
    is pushed; the [ts] is left as [process_node] set it. *)
Definition on_dense_node (p : Parser f64) (node : DenseNodeElem) : option (Statement * Parser f64) :=
  let info := node.(dense_info) in
  let '(statement, p) :=
    process_node f64 f64_display p info.(deleted) node.(dense_id) node.(dense_tags)
      node.(dense_lat) node.(dense_lon) in
  match statement with
  | Create elem id ts value =>
      match push_metadata value info.(version) info.(user) info.(milli_timestamp)
              info.(changeset) with
      | Some value => Some (Create elem id ts value, p)
      | None => None
      end
  | _ => Some (statement, p)
  end.

(** The [geos] calls of [parse_way_geometry] and the cache read, as
    functions of the library. [CoordSeq::new_from_vec] takes each [[a, b]]
    as the point [x = a], [y = b]. *)
Variable CoordSeq Geometry : Type.
Variable coord_seq_new_from_vec : list (f64 * f64) -> result CoordSeq.
Variable create_line_string : CoordSeq -> result Geometry.
Variable is_closed : Geometry -> result bool.
Variable point_on_surface : Geometry -> result Geometry.
Variable get_x get_y : Geometry -> result f64.
(** [Cache::get_lat_lon] of osmnodecache on the parser's node store. *)
Variable get_lat_lon : gmap Z (f64 * f64) -> Z -> f64 * f64.

(** [Parser::parse_way_geometry]: the buffer after the clauses it pushed,
    and its [anyhow::Result]; [None] is the panic of an [unwrap]. *)
Definition parse_way_geometry (p : Parser f64) (value : string) (refs : list Z)
  : option (string * result unit) :=
  let refs := map (fun id => let '(lat, lng) := get_lat_lon p.(cache) (id mod 2 ^ 64) in
                             (lat, lng)) refs in
  match coord_seq_new_from_vec refs with
  | Err e => Some (value, Err e)
  | Ok cs =>
  match create_line_string cs with
  | Err e => Some (value, Err e)
  | Ok geometry =>
  match is_closed geometry with
  | Err e => Some (value, Err e)
  | Ok value1 =>
      let value := push_value value "osmm:isClosed" (XsdBoolean value1) in
      match point_on_surface geometry with
      | Err e => Some (value, Err e)
      | Ok g =>
          match get_y g with
          | Err _ => None
          | Ok lat =>
              match get_x g with
              | Err _ => None
              | Ok lon => Some (push_value value "osmm:loc" (XsdPoint f64 f64_display lat lon), Ok tt)
              end
          end
      end
  end end end.

(** [Parser::on_way]; [None] is a panic. *)
Definition on_way (p : Parser f64) (way : WayElem) : option (Statement * Parser f64) :=
  let info := way.(way_info) in
  if info.(deleted) then
    Some (Delete Way way.(way_id), mkParser (incr_deleted_ways p.(stats)) p.(cache))
  else
    let value := push_all_tags EmptyString way.(way_tags) in
    let value := push_value value "osmm:type" (XsdElement Way) in
    match push_info value info with
    | None => None
    | Some (value, ts) =>
        match parse_way_geometry p value way.(way_refs) with
        | None => None
        | Some (value, r) =>
            let value := match r with
                         | Ok _ => value
                         | Err err => push_value value "osmm:loc:error" (XsdStr err)
                         end in
            Some (Create Way way.(way_id) ts value, mkParser (incr_added_ways p.(stats)) p.(cache))
        end
    end.

(** [for x in xs { writer(handler(x)) }]: the statements in order. *)
Fixpoint emit_all {A : Type} (handler : Parser f64 -> A -> option (Statement * Parser f64))
    (p : Parser f64) (xs : list A) : option (list Statement * Parser f64) :=
  match xs with
  | [] => Some ([], p)
  | x :: xs =>
      match handler p x with
      | None => None
      | Some (s, p) =>
          match emit_all handler p xs with
          | None => None
          | Some (ss, p) => Some (s :: ss, p)
          end
      end
  end.

(** The body of [for group in block.groups()] of [parse_block]. *)
Definition parse_group (p : Parser f64) (group : Group) : option (list Statement * Parser f64) :=
  match emit_all on_node p group.(g_nodes) with
  | None => None
  | Some (s1, p) =>
  match emit_all on_dense_node p group.(g_dense) with
  | None => None
  | Some (s2, p) =>
  match emit_all on_way p group.(g_ways) with
  | None => None
  | Some (s3, p) =>
  match emit_all (on_relation f64) p group.(g_rels) with
  | None => None
  | Some (s4, p) => Some (s1 ++ s2 ++ s3 ++ s4, p)
  end end end end.

(** [parse_block]: everything handed to [writer], in order. *)
Fixpoint parse_block (p : Parser f64) (groups : list Group) : option (list Statement * Parser f64) :=
  match groups with
  | [] => Some ([], p)
  | g :: gs =>
      match parse_group p g with
      | None => None
      | Some (s, p) =>
          match parse_block p gs with
          | None => None
          | Some (ss, p) => Some (s ++ ss, p)
          end
      end
  end.

(** The elements of a block, per kind. *)
Definition group_size (g : Group) : nat :=
  (length g.(g_nodes) + length g.(g_dense) + length g.(g_ways) + length g.(g_rels))%nat.
Definition nodes_in (groups : list Group) : nat :=
  list_sum (map (fun g => length g.(g_nodes) + length g.(g_dense))%nat groups).
Definition ways_in (groups : list Group) : nat := list_sum (map (fun g => length g.(g_ways)) groups).
Definition rels_in (groups : list Group) : nat := list_sum (map (fun g => length g.(g_rels)) groups).

(** What [process_node] does to the cache for one (dense) node. *)
Definition store_node (c : gmap Z (f64 * f64)) (e : bool * Z * f64 * f64) : gmap Z (f64 * f64) :=
  let '(is_deleted, id, lat, lon) := e in
  if is_deleted then c else set_lat_lon f64 c id lat lon.

(** The nodes of a group as [process_node] receives them, nodes first. *)
Definition node_entries (g : Group) : list (bool * Z * f64 * f64) :=
  map (fun n => (n.(node_info).(deleted), n.(node_id), n.(node_lat), n.(node_lon))) g.(g_nodes) ++
  map (fun n => (n.(dense_info).(deleted), n.(dense_id), n.(dense_lat), n.(dense_lon))) g.(g_dense).

End ParserBlock.

Arguments node_id {f64}.
Arguments node_tags {f64}.
Arguments node_lat {f64}.
Arguments node_lon {f64}.
Arguments node_info {f64}.
Arguments dense_id {f64}.
Arguments dense_tags {f64}.
Arguments dense_lat {f64}.
Arguments dense_lon {f64}.
Arguments dense_info {f64}.
Arguments g_nodes {f64}.
Arguments g_dense {f64}.
Arguments g_ways {f64}.
Arguments g_rels {f64}.

(* ================================================================== *)
(** * Properties *)

(** ** String lemmas *)

(** [String.append] does not unfold under [simpl]; its two equations. *)
Lemma str_app_nil_l (b : string) : EmptyString +:+ b = b.
Proof. reflexivity. Qed.

Lemma str_app_cons (x : ascii) (a b : string) : String x a +:+ b = String x (a +:+ b).
Proof. reflexivity. Qed.

Lemma str_app_assoc (a b c : string) : (a +:+ b) +:+ c = a +:+ (b +:+ c).
Proof. induction a as [|x a IH]; [reflexivity | rewrite !str_app_cons, IH; reflexivity]. Qed.

Lemma str_app_nil_r (a : string) : a +:+ EmptyString = a.
Proof. induction a as [|x a IH]; [reflexivity | rewrite str_app_cons, IH; reflexivity]. Qed.

Lemma str_app_length (a b : string) :
  String.length (a +:+ b) = (String.length a + String.length b)%nat.
Proof. induction a as [|x a IH]; [reflexivity | rewrite str_app_cons; simpl; rewrite IH; reflexivity]. Qed.



(** [created_by] is a valid local name, so an invalid key is never it. *)
Lemma invalid_key_not_created_by (key : string) :
  RE_SIMPLE_LOCAL_NAME key = false -> String.eqb key "created_by" = false.
Proof.
  intros H. destruct (String.eqb_spec key "created_by") as [->|]; [discriminate | reflexivity].
Qed.

(** ** C5: an invalid tag key yields one [osmm:badkey] clause carrying the value *)

(** C5. For every tag whose key does not match [RE_SIMPLE_LOCAL_NAME], the
    tag loop of [Parser::push_all_tags] appends exactly one clause,
    [osmm:badkey] followed by the tag's value (not its key) as a JSON
    quoted string, and nothing else for that tag; the remaining tags are
    then rendered as before. *)
Theorem push_all_tags_badkey (value key val : string) (rest : list (string * string)) :
  RE_SIMPLE_LOCAL_NAME key = false ->
  push_all_tags value ((key, val) :: rest) =
  push_all_tags (value +:+ "osmm:badkey " +:+ XsdStr val +:+ ";" +:+ nl) rest.
Proof.
  intros H. simpl. unfold push_tag.
  rewrite (invalid_key_not_created_by key H), H. reflexivity.
Qed.

Lemma push_all_tags_badkey_witness :
  RE_SIMPLE_LOCAL_NAME "bad key" = false /\
  push_all_tags EmptyString [("bad key", "v")] =
  push_all_tags (EmptyString +:+ "osmm:badkey " +:+ XsdStr "v" +:+ ";" +:+ nl) [].
Proof.
  split; [reflexivity |].
  apply (push_all_tags_badkey EmptyString "bad key" "v" []). reflexivity.
Defined.

(** ** C10: a non-deleted node is always written to the cache *)

(** C10. For every non-deleted node, [Parser::process_node] stores the
    node's [(lat, lon)] in the cache under [id as usize] (the other
    entries unchanged), whatever the statement it returns, [Skip]
    included. *)
Theorem process_node_sets_cache (f64 : Type) (disp : f64 -> string)
    (p : Parser f64) (id : Z) (tags : list (string * string)) (lat lon : f64) :
  (snd (process_node f64 disp p false id tags lat lon)).(cache) =
    <[id mod 2 ^ 64 := (lat, lon)]> p.(cache) /\
  (snd (process_node f64 disp p false id tags lat lon)).(cache) !! (id mod 2 ^ 64) =
    Some (lat, lon).
Proof.
  unfold process_node; simpl.
  destruct (String.eqb (push_all_tags EmptyString tags) EmptyString); simpl;
    unfold set_lat_lon; split; try reflexivity; apply lookup_insert_eq.
Qed.

(** ** C6: a deleted relation *)

(** C6. For a relation whose [Info] marks it deleted, [Parser::on_relation]
    increments [deleted_rels] and returns [Delete] with the relation's id
    but with [elem = Element::Way], which displays as [osmway], not
    [osmrel]. *)
Theorem on_relation_deleted (f64 : Type) (disp : f64 -> string)
    (p : Parser f64) (rel : RelationElem) :
  rel.(rel_info).(deleted) = true ->
  on_relation f64 p rel =
    Some (Delete Way rel.(rel_id), mkParser (incr_deleted_rels p.(stats)) p.(cache)) /\
  element_display Way = "osmway" /\ element_display Relation = "osmrel".
Proof.
  intros H. unfold on_relation. rewrite H. repeat split.
Qed.

Definition deleted_rel_5 : RelationElem :=
  mkRelation 5 [] (mkInfo true 2 "u" 0 1) [].

Lemma on_relation_deleted_witness :
  deleted_rel_5.(rel_info).(deleted) = true /\
  on_relation unit (mkParser stats_default ∅) deleted_rel_5 =
    Some (Delete Way 5, mkParser (incr_deleted_rels stats_default) ∅) /\
  element_display Way = "osmway" /\ element_display Relation = "osmrel".
Proof.
  split; [reflexivity |].
  exact (on_relation_deleted unit (fun _ => EmptyString) (mkParser stats_default ∅)
           deleted_rel_5 eq_refl).
Defined.

(** ** C7: the millisecond remainder is passed to chrono as nanoseconds *)

(** C7. [to_utc] passes [milli_timestamp % 1000] as the nanosecond
    argument of [timestamp_opt]: 1500 ms gives the instant 1 s + 500 ns
    (rendered [1970-01-01 00:00:01.000000500 UTC]), not 1.5 s; and a
    negative remainder wraps in [as u32] past chrono's bound, so [to_utc]
    panics at -1 ms. *)
Theorem to_utc_millis_as_nanos :
  to_utc 1500 = Some (mkDateTime 1 500) /\
  dt_instant_ns (mkDateTime 1 500) = 1000000500 /\
  dt_instant_ns (mkDateTime 1 500) <> 1500 * 1000000 /\
  XsdDateTime 1500 =
    Some (dq +:+ "1970-01-01 00:00:01.000000500 UTC" +:+ dq +:+ "^^xsd:dateTime") /\
  to_utc (-1) = None.
Proof. vm_compute. repeat split; discriminate. Qed.

(** ** Tag rendering appends to the buffer *)







(** ** Relation members *)

(** The two clauses [Parser::on_relation] writes for one member. *)
Definition member_clauses (m : RelMember) : string :=
  "osmm:has " +:+ XsdRelMember m +:+ ";" +:+ nl +:+
  XsdRelMember m +:+ " " +:+ XsdStr m.(role) +:+ ";" +:+ nl.

Lemma push_member_app (value : string) (m : RelMember) :
  push_member value m = value +:+ member_clauses m.
Proof. unfold push_member, push_value, member_clauses. rewrite !str_app_assoc. reflexivity. Qed.

Lemma fold_push_member (ms : list RelMember) (value : string) :
  fold_left push_member ms value = value +:+ concat_str (map member_clauses ms).
Proof.
  revert value. induction ms as [|m ms IH]; intros value; simpl.
  - symmetry; apply str_app_nil_r.
  - rewrite IH, push_member_app, str_app_assoc. reflexivity.
Qed.

(** C1 (as the code does it). For a non-deleted relation whose body
    renders, [Parser::on_relation] returns [Create] whose text is the
    tags, type and metadata block followed, for every member in order,
    by both clauses [osmm:has <member>;] and [<member> <role>;], the role
    as a JSON quoted string: the role clause is written for every member,
    an empty role included. *)
Theorem on_relation_member_clauses (f64 : Type) (p : Parser f64) (rel : RelationElem)
    (st : Statement) (p' : Parser f64) :
  rel.(rel_info).(deleted) = false ->
  on_relation f64 p rel = Some (st, p') ->
  exists head ts,
    push_info (push_value (push_all_tags EmptyString rel.(rel_tags)) "osmm:type"
                 (XsdElement Relation)) rel.(rel_info) = Some (head, ts) /\
    st = Create Relation rel.(rel_id) ts
           (head +:+ concat_str (map member_clauses rel.(rel_members))).
Proof.
  intros Hdel. unfold on_relation. rewrite Hdel.
  destruct (push_info _ _) as [[head ts]|] eqn:E; [|discriminate].
  intros H. injection H as <- _.
  exists head, ts. split; [reflexivity |]. rewrite fold_push_member. reflexivity.
Qed.

(** A non-deleted relation with one member, way 77, with an empty role. *)
Definition rel_77 : RelationElem :=
  mkRelation 1 [] (mkInfo false 1 "u" 0 1) [mkRelMember 77 MWay EmptyString].

Lemma on_relation_member_clauses_witness :
  rel_77.(rel_info).(deleted) = false /\
  exists head ts,
    push_info (push_value (push_all_tags EmptyString rel_77.(rel_tags)) "osmm:type"
                 (XsdElement Relation)) rel_77.(rel_info) = Some (head, ts) /\
    Create Relation 1 0 (head +:+ concat_str (map member_clauses rel_77.(rel_members))) =
    Create Relation rel_77.(rel_id) ts
      (head +:+ concat_str (map member_clauses rel_77.(rel_members))).
Proof.
  split; [reflexivity |].
  destruct (on_relation unit (mkParser stats_default ∅) rel_77) as [[st p']|] eqn:E.
  - destruct (on_relation_member_clauses unit (mkParser stats_default ∅) rel_77 st p'
                eq_refl E) as (head & ts & H1 & H2).
    exists head, ts. split; [exact H1 |].
    vm_compute in H1. injection H1 as _ <-. reflexivity.
  - vm_compute in E. discriminate.
Defined.

(** C1 fails as stated: the member with an empty role still gets the role
    clause [osmway:77 "";]. *)
Lemma on_relation_empty_role_cex :
  member_clauses (mkRelMember 77 MWay EmptyString) =
    "osmm:has osmway:77;" +:+ nl +:+ "osmway:77 " +:+ dq +:+ dq +:+ ";" +:+ nl /\
  match on_relation unit (mkParser stats_default ∅) rel_77 with
  | Some (Create Relation 1 _ val, _) =>
      str_contains val ("osmway:77 " +:+ dq +:+ dq +:+ ";" +:+ nl) = true
  | _ => False
  end.
Proof. split; vm_compute; reflexivity. Qed.

(** ** Nodes: [Skip] or [Create] *)




(** ** The statistics totalizer *)

Definition sumZ (xs : list Z) : Z := fold_right Z.add 0 xs.

Lemma sumZ_perm (xs ys : list Z) : Permutation xs ys -> sumZ xs = sumZ ys.
Proof. induction 1; simpl; lia. Qed.

(** Every counter holds a [u64]. *)
Definition stats_valid (s : Stats) : Prop :=
  Forall (fun x => 0 <= x < 2 ^ 64)
    [s.(added_nodes); s.(added_rels); s.(added_ways); s.(skipped_nodes);
     s.(deleted_nodes); s.(deleted_rels); s.(deleted_ways); s.(blocks)].

(** The closed form of the totalizer. *)
Lemma merge_all_eq (total : Stats) (ws : list Stats) :
  stats_valid total ->
  merge_all total ws =
  mkStats ((total.(added_nodes) + sumZ (map added_nodes ws)) mod 2 ^ 64)
          ((total.(added_rels) + sumZ (map added_rels ws)) mod 2 ^ 64)
          ((total.(added_ways) + sumZ (map added_ways ws)) mod 2 ^ 64)
          ((total.(skipped_nodes) + sumZ (map skipped_nodes ws)) mod 2 ^ 64)
          ((total.(deleted_nodes) + sumZ (map deleted_nodes ws)) mod 2 ^ 64)
          ((total.(deleted_rels) + sumZ (map deleted_rels ws)) mod 2 ^ 64)
          ((total.(deleted_ways) + sumZ (map deleted_ways ws)) mod 2 ^ 64)
          ((total.(blocks) + Z.of_nat (length ws)) mod 2 ^ 64).
Proof.
  unfold merge_all. revert total.
  induction ws as [|w ws IH]; intros total Hv; simpl.
  - destruct total; unfold stats_valid in Hv; simpl in *.
    repeat match goal with H : Forall _ (_ :: _) |- _ => inversion_clear H end.
    f_equal; rewrite Z.add_0_r; symmetry; apply Z.mod_small; assumption.
  - rewrite IH.
    + destruct total, w; simpl. unfold add_u64.
      f_equal; rewrite Zplus_mod_idemp_l; f_equal; lia.
    + destruct total, w; unfold stats_valid; simpl; unfold add_u64.
      repeat constructor; apply Z.mod_pos_bound; lia.
Qed.

Lemma stats_default_valid : stats_valid stats_default.
Proof. unfold stats_valid; simpl. repeat constructor; lia. Qed.

(** C2 (as the code does it). Merging the [Stats] of [k] workers into the
    run total, which starts from [Stats::default()], makes each of the
    seven added/skipped/deleted counters the sum of the [k] values (in
    [u64] arithmetic), while [blocks] counts the merges and becomes [k]
    whatever the workers' own [blocks]; the total is the same for every
    order in which the workers take the lock. *)
Theorem merge_all_sums (ws : list Stats) :
  let t := merge_all stats_default ws in
  t.(added_nodes) = sumZ (map added_nodes ws) mod 2 ^ 64 /\
  t.(added_rels) = sumZ (map added_rels ws) mod 2 ^ 64 /\
  t.(added_ways) = sumZ (map added_ways ws) mod 2 ^ 64 /\
  t.(skipped_nodes) = sumZ (map skipped_nodes ws) mod 2 ^ 64 /\
  t.(deleted_nodes) = sumZ (map deleted_nodes ws) mod 2 ^ 64 /\
  t.(deleted_rels) = sumZ (map deleted_rels ws) mod 2 ^ 64 /\
  t.(deleted_ways) = sumZ (map deleted_ways ws) mod 2 ^ 64 /\
  t.(blocks) = Z.of_nat (length ws) mod 2 ^ 64 /\
  (forall ws', Permutation ws ws' -> merge_all stats_default ws' = t).
Proof.
  cbv zeta. rewrite (merge_all_eq _ _ stats_default_valid). simpl.
  repeat split.
  intros ws' Hp. rewrite (merge_all_eq _ _ stats_default_valid).
  rewrite (Permutation_length Hp).
  repeat (rewrite (sumZ_perm _ _ (Permutation_map _ Hp))). reflexivity.
Qed.

Definition stats_one_added_node : Stats := mkStats 1 0 0 0 0 0 0 0.

Lemma merge_all_sums_witness :
  Permutation [stats_one_added_node; stats_default] [stats_default; stats_one_added_node] /\
  merge_all stats_default [stats_default; stats_one_added_node] =
  merge_all stats_default [stats_one_added_node; stats_default].
Proof.
  split; [apply perm_swap |].
  exact (proj2 (proj2 (proj2 (proj2 (proj2 (proj2 (proj2 (proj2
           (merge_all_sums [stats_one_added_node; stats_default]))))))))
           _ (perm_swap _ _ _)).
Defined.

(** C2 fails as stated for [blocks]: one worker with [blocks = 0] (no
    parser ever increments it) gives a total of [blocks = 1]. *)
Lemma merge_all_blocks_cex :
  (merge_all stats_default [stats_default]).(blocks) = 1 /\
  sumZ (map blocks [stats_default]) = 0.
Proof. split; reflexivity. Qed.

(** ** The writer: the running maximum and the trailer *)

Lemma writer_step_oldest (mx : Z) (st : WriterState) (v : Statement) :
  (writer_step mx st v).(oldest_ts) =
  match v with Create _ _ ts _ => Z.max st.(oldest_ts) ts | _ => st.(oldest_ts) end.
Proof.
  destruct v as [| |elem id ts val]; try reflexivity. unfold writer_step.
  destruct (encoder st) as [e|]; simpl;
    [destruct (mx <? _) | destruct (mx <? _)]; reflexivity.
Qed.

Lemma fold_writer_oldest (mx : Z) (sts : list Statement) (st : WriterState) :
  (fold_left (writer_step mx) sts st).(oldest_ts) = fold_left Z.max (create_ts sts) st.(oldest_ts).
Proof.
  revert st. induction sts as [|v sts IH]; intros st; simpl; [reflexivity |].
  rewrite IH, writer_step_oldest. destruct v; reflexivity.
Qed.

Lemma fold_max_perm (l l' : list Z) (a : Z) :
  Permutation l l' -> fold_left Z.max l a = fold_left Z.max l' a.
Proof.
  intros Hp. revert a. induction Hp as [|x l l' Hp IH|x y l|l l' l'' H1 IH1 H2 IH2];
    intros a; simpl.
  - reflexivity.
  - apply IH.
  - f_equal. lia.
  - rewrite IH1. apply IH2.
Qed.

Lemma create_ts_perm (sts sts' : list Statement) :
  Permutation sts sts' -> Permutation (create_ts sts) (create_ts sts').
Proof.
  induction 1 as [|x l l' Hp IH|x y l|l l' l'' H1 IH1 H2 IH2]; simpl.
  - constructor.
  - destruct x; auto.
  - destruct x, y; try constructor; reflexivity.
  - etransitivity; eauto.
Qed.

Lemma fold_max_bounds (l : list Z) (a : Z) :
  a <= fold_left Z.max l a /\ Forall (fun t => t <= fold_left Z.max l a) l /\
  (fold_left Z.max l a = a \/ In (fold_left Z.max l a) l).
Proof.
  revert a. induction l as [|x l IH]; intros a; simpl.
  - split; [lia | split; [constructor | left; reflexivity]].
  - destruct (IH (Z.max a x)) as (H1 & H2 & H3). split; [lia |]. split.
    + constructor; [lia | exact H2].
    + destruct H3 as [H3|H3]; [|right; right; exact H3].
      rewrite H3. destruct (Z.max_spec a x) as [[_ ->]|[_ ->]]; auto.
Qed.

(** C3 (as the code does it). After the channel closes, the writer creates
    one more file after the data files and writes into it the single
    statement [osmroot: schema:dateModified <ts>.], where [ts] is
    [to_utc] of [M], the running maximum started at 0: [M] is at least 0
    and at least every [Create]'s [ts], and is either 0 or one of them,
    so it is the maximum [ts] when some [Create] has [ts >= 0] and 0
    otherwise (no [Create], or only negative [ts]). [M] is the same for
    every arrival order. If [to_utc M] panics the file is left empty. *)
Theorem writer_trailer_max_ts (mx : Z) (sts : list Statement) :
  let M := fold_left Z.max (create_ts sts) 0 in
  writer_run mx sts =
    (data_files (writer_stream mx sts) ++
       [((writer_stream mx sts).(file_index), fst (trailer M))], snd (trailer M)) /\
  0 <= M /\ Forall (fun t => t <= M) (create_ts sts) /\ (M = 0 \/ In M (create_ts sts)) /\
  (forall sts', Permutation sts sts' -> fold_left Z.max (create_ts sts') 0 = M).
Proof.
  cbv zeta. destruct (fold_max_bounds (create_ts sts) 0) as (H1 & H2 & H3).
  split; [| split; [exact H1 | split; [exact H2 | split; [exact H3 |]]]].
  - unfold writer_run. unfold writer_stream at 2.
    rewrite fold_writer_oldest. simpl. destruct (trailer _). reflexivity.
  - intros sts' Hp. symmetry. apply fold_max_perm, create_ts_perm, Hp.
Qed.

Lemma writer_trailer_max_ts_witness :
  Permutation [Create Node 1 5 "a"; Create Way 2 9 "b"] [Create Way 2 9 "b"; Create Node 1 5 "a"] /\
  fold_left Z.max (create_ts [Create Way 2 9 "b"; Create Node 1 5 "a"]) 0 =
  fold_left Z.max (create_ts [Create Node 1 5 "a"; Create Way 2 9 "b"]) 0.
Proof.
  split; [apply perm_swap |].
  exact (proj2 (proj2 (proj2 (proj2
           (writer_trailer_max_ts 100 [Create Node 1 5 "a"; Create Way 2 9 "b"]))))
           _ (perm_swap _ _ _)).
Defined.

(** C3 fails as stated: with one [Create] of [ts = -5000] (5 s before the
    epoch), the trailer records the epoch, [to_utc 0], not [to_utc (-5000)]. *)
Lemma writer_trailer_negative_cex :
  to_utc (-5000) = Some (mkDateTime (-5) 0) /\
  last (fst (writer_run 100 [Create Node 1 (-5000) "a"])) =
    Some (1, "osmroot: schema:dateModified " +:+ dt_display (mkDateTime 0 0) +:+ "." +:+ nl) /\
  dt_display (mkDateTime 0 0) <> dt_display (mkDateTime (-5) 0).
Proof. vm_compute. split; [reflexivity | split; [reflexivity | discriminate]]. Qed.

(** ** The writer: what the data files hold *)

Lemma concat_str_app (a b : list string) : concat_str (a ++ b) = concat_str a +:+ concat_str b.
Proof.
  induction a as [|x a IH]; simpl; [reflexivity |]. unfold concat_str in *. simpl.
  rewrite IH, str_app_assoc. reflexivity.
Qed.

Lemma data_files_step_create (mx : Z) (st : WriterState) (elem : Element) (id ts : Z)
    (val : string) :
  data_files (writer_step mx st (Create elem id ts val)) =
  match st.(encoder) with
  | Some (i, c) => st.(finished) ++ [(i, c +:+ create_block elem id val)]
  | None => st.(finished) ++ [(st.(file_index), EmptyString +:+ create_block elem id val)]
  end.
Proof.
  unfold writer_step, data_files. destruct (encoder st) as [[i c]|]; simpl;
    destruct (mx <? _); simpl; rewrite ?app_nil_r; reflexivity.
Qed.

Lemma concat_str_snoc (g : list string) (b : string) :
  concat_str (g ++ [b]) = concat_str g +:+ b.
Proof. rewrite concat_str_app. unfold concat_str at 2. simpl. rewrite str_app_nil_r. reflexivity. Qed.

(** The files written so far split the blocks [bl] seen so far into
    non-empty runs, in order: one run per finished file, and the last run
    in the open file when there is one. *)
Definition files_inv (st : WriterState) (bl : list string) : Prop :=
  exists gs, Forall (fun g => g <> []) gs /\ map snd st.(finished) = map concat_str gs /\
    match st.(encoder) with
    | Some (_, c) => exists g, g <> [] /\ c = concat_str g /\ concat gs ++ g = bl
    | None => concat gs = bl
    end.

Lemma files_inv_init : files_inv writer_init [].
Proof. exists []. repeat split; constructor. Qed.

Lemma snoc_not_nil (g : list string) (b : string) : g ++ [b] <> [].
Proof. intros H. apply app_eq_nil in H as [_ H]. discriminate H. Qed.

Lemma files_inv_step (mx : Z) (st : WriterState) (bl : list string) (v : Statement) :
  files_inv st bl -> files_inv (writer_step mx st v) (bl ++ create_blocks [v]).
Proof.
  intros (gs & Hne & Hfin & Henc).
  destruct v as [| |elem id ts val]; cbn [create_blocks]; try (rewrite app_nil_r; exists gs; auto).
  set (b := create_block elem id val). unfold writer_step, files_inv. fold b.
  destruct (encoder st) as [[i c]|]; cbn zeta.
  - destruct Henc as (g & Hg & Hc & Hbl).
    destruct (mx <? _); simpl.
    + exists (gs ++ [g ++ [b]]). split; [apply Forall_app; split; [exact Hne | constructor; [apply snoc_not_nil | constructor]] |].
      split; [rewrite !map_app, Hfin; simpl; rewrite Hc, concat_str_snoc; reflexivity |].
      rewrite concat_app. simpl. rewrite app_nil_r, app_assoc, Hbl. reflexivity.
    + exists gs. split; [exact Hne |]. split; [exact Hfin |].
      exists (g ++ [b]). split; [apply snoc_not_nil |]. split; [rewrite Hc, concat_str_snoc; reflexivity |].
      rewrite app_assoc, Hbl. reflexivity.
  - destruct (mx <? _); simpl.
    + exists (gs ++ [[b]]). split; [apply Forall_app; split; [exact Hne | constructor; [discriminate | constructor]] |].
      split; [rewrite !map_app, Hfin; simpl; unfold concat_str at 2; simpl; rewrite str_app_nil_r; reflexivity |].
      rewrite concat_app. simpl. rewrite Henc. reflexivity.
    + exists gs. split; [exact Hne |]. split; [exact Hfin |].
      exists [b]. split; [discriminate |]. split; [unfold concat_str; simpl; rewrite str_app_nil_r; reflexivity |].
      rewrite Henc. reflexivity.
Qed.

Lemma files_inv_fold (mx : Z) (sts : list Statement) (st : WriterState) (bl : list string) :
  files_inv st bl -> files_inv (fold_left (writer_step mx) sts st) (bl ++ create_blocks sts).
Proof.
  revert st bl. induction sts as [|v sts IH]; intros st bl H; cbn [fold_left].
  - rewrite app_nil_r. exact H.
  - replace (bl ++ create_blocks (v :: sts)) with ((bl ++ create_blocks [v]) ++ create_blocks sts)
      by (rewrite <- app_assoc; destruct v; reflexivity).
    apply IH, files_inv_step, H.
Qed.

(** C4 (as the code does it). The data files split the blocks
    [<elem>:<id>\n<val>\n] of the [Create] statements, in arrival order,
    into non-empty runs of consecutive statements: in the order the files
    were created, each file holds exactly the blocks of its run, with
    nothing else, and the runs together are all the blocks. So no prefix
    header is written, and each file begins with the block of the first
    [Create] of its run: the one that opened it, the first after the start
    or after the rotation that closed the previous file. *)
Theorem writer_files_no_header (mx : Z) (sts : list Statement) :
  exists groups : list (list string),
    concat groups = create_blocks sts /\
    map snd (data_files (writer_stream mx sts)) = map concat_str groups /\
    Forall (fun g => g <> []) groups.
Proof.
  destruct (files_inv_fold mx sts writer_init [] files_inv_init) as (gs & Hne & Hfin & Henc).
  fold (writer_stream mx sts) in Hfin, Henc. cbn [app] in Henc.
  unfold data_files. destruct (encoder (writer_stream mx sts)) as [[i c]|].
  - destruct Henc as (g & Hg & Hc & Hbl). exists (gs ++ [g]).
    split; [rewrite concat_app; simpl; rewrite app_nil_r; exact Hbl |].
    split; [rewrite !map_app, Hfin; simpl; rewrite Hc; reflexivity |].
    apply Forall_app. split; [exact Hne | constructor; [exact Hg | constructor]].
  - exists gs. rewrite app_nil_r. auto.
Qed.

(** C4 fails as stated: the only data file of a one-statement run is the
    element block itself, so no non-empty header precedes it. *)
Lemma writer_no_header_cex :
  data_files (writer_stream 100 [Create Node 1 0 "a"]) = [(0, create_block Node 1 "a")] /\
  create_block Node 1 "a" = "osmnode:1" +:+ nl +:+ "a" +:+ nl /\
  (forall hdr, hdr <> EmptyString -> hdr +:+ create_block Node 1 "a" <> create_block Node 1 "a").
Proof.
  split; [reflexivity | split; [reflexivity |]].
  intros hdr Hh He. apply (f_equal String.length) in He. rewrite str_app_length in He.
  destruct hdr; [contradiction | simpl in He; lia].
Qed.

(** ** Wikidata tags *)

(** A list value [id0 a1;b1 id1 ... an;bn idn]: [ai], [bi] whitespace. *)
Definition sep_text (x : string * string * string) : string :=
  let '(a, b, i) := x in a +:+ ";" +:+ b +:+ i.

Definition sep_id (x : string * string * string) : string :=
  let '(_, _, i) := x in i.

(** A run of whitespace characters. *)
Definition ws_run (a : string) : Prop :=
  exists ws, Forall (fun w => In w ws_chars) ws /\ a = concat_str ws.

Definition sep_ok (x : string * string * string) : Prop :=
  let '(a, b, i) := x in ws_run a /\ ws_run b /\ RE_WIKIDATA_VALUE i = true.

Definition multi_value (id0 : string) (rest : list (string * string * string)) : string :=
  id0 +:+ concat_str (map sep_text rest).

Definition no_semi (s : string) : bool := str_forallb (fun c => negb (Ascii.eqb c ";"%char)) s.

Lemma str_forallb_app (f : ascii -> bool) (a b : string) :
  str_forallb f (a +:+ b) = str_forallb f a && str_forallb f b.
Proof.
  induction a as [|x a IH]; [reflexivity |].
  rewrite str_app_cons. simpl. rewrite IH, andb_assoc. reflexivity.
Qed.

Lemma str_rev_app (a b : string) : str_rev (a +:+ b) = str_rev b +:+ str_rev a.
Proof.
  induction a as [|c a IH].
  - rewrite str_app_nil_l. simpl. symmetry. apply str_app_nil_r.
  - rewrite ?str_app_cons; simpl. rewrite IH, str_app_assoc. reflexivity.
Qed.

Lemma str_rev_involutive (s : string) : str_rev (str_rev s) = s.
Proof.
  induction s as [|c s IH]; [reflexivity |]. simpl. rewrite str_rev_app, IH. reflexivity.
Qed.

Lemma str_forallb_rev (f : ascii -> bool) (s : string) : str_forallb f (str_rev s) = str_forallb f s.
Proof.
  induction s as [|c s IH]; [reflexivity |]. simpl.
  rewrite str_forallb_app, IH. simpl. rewrite andb_true_r, andb_comm. reflexivity.
Qed.

(** Each of the 25 whitespace encodings in turn. *)
Ltac ws_cases H :=
  apply in_map_iff in H as (l & <- & H); simpl in H;
  repeat (destruct H as [<- | H]); [.. | contradiction H].

(** What reading one whitespace character does, in the automaton and in
    the two scans of [trim]; computed for each of them. *)
Lemma ws_char_facts (w : string) :
  In w ws_chars ->
  (forall m semi t, qrun (QWs m EmptyString) semi (w +:+ t) = qrun (QWs m EmptyString) semi t) /\
  (forall k semi t, qrun (QDigits k) semi (w +:+ t) = qrun (QWs false EmptyString) semi t) /\
  (forall t, strip_ws ws_chars EmptyString (w +:+ t) = strip_ws ws_chars EmptyString t) /\
  (forall t, strip_ws (map str_rev ws_chars) EmptyString (str_rev w +:+ t) =
             strip_ws (map str_rev ws_chars) EmptyString t) /\
  no_semi w = true.
Proof.
  intros H. ws_cases H;
    (split; [intros [] [] t; reflexivity |]);
    (split; [intros k [] t; reflexivity |]);
    repeat split; intros; reflexivity.
Qed.

Lemma ws_run_app (a b : string) : ws_run a -> ws_run b -> ws_run (a +:+ b).
Proof.
  intros (wa & Ha & ->) (wb & Hb & ->). exists (wa ++ wb). split; [apply Forall_app; auto |].
  induction wa as [|w wa IH]; [reflexivity |]. inversion Ha; subst.
  unfold concat_str in *. simpl. rewrite str_app_assoc, IH by assumption. reflexivity.
Qed.

Lemma ws_run_nil : ws_run EmptyString.
Proof. exists []. split; [constructor | reflexivity]. Qed.

Lemma ws_run_char (w : string) : In w ws_chars -> ws_run w.
Proof.
  intros H. exists [w]. split; [constructor; [exact H | constructor] |].
  unfold concat_str. simpl. symmetry. apply str_app_nil_r.
Qed.

Lemma ws_run_facts (a : string) :
  ws_run a ->
  (forall m semi t, qrun (QWs m EmptyString) semi (a +:+ t) = qrun (QWs m EmptyString) semi t) /\
  (forall t, strip_ws ws_chars EmptyString (a +:+ t) = strip_ws ws_chars EmptyString t) /\
  (forall t, strip_ws (map str_rev ws_chars) EmptyString (str_rev a +:+ t) =
             strip_ws (map str_rev ws_chars) EmptyString t) /\
  no_semi a = true.
Proof.
  intros (ws & Hws & ->). induction Hws as [|w ws Hw Hws IH].
  - repeat split; reflexivity.
  - destruct IH as (I1 & I2 & I3 & I4).
    destruct (ws_char_facts w Hw) as (W1 & _ & W3 & W4 & W5).
    unfold concat_str in *. cbn [fold_right]. repeat split.
    + intros m semi t. rewrite str_app_assoc, W1. apply I1.
    + intros t. rewrite str_app_assoc, W3. apply I2.
    + intros t. rewrite str_rev_app, str_app_assoc, I3. apply W4.
    + unfold no_semi in *. rewrite str_forallb_app, W5, I4. reflexivity.
Qed.

Lemma valid_qid_shape (i : string) :
  RE_WIKIDATA_VALUE i = true ->
  exists d r, i = String "Q"%char (String d r) /\ is_nonzero_digit d = true /\
              str_forallb is_digit r = true /\ (String.length r <= 18)%nat.
Proof.
  unfold RE_WIKIDATA_VALUE. destruct i as [|q [|d r]]; try discriminate.
  rewrite !andb_true_iff, Z.leb_le. intros [[[Hq Hd] Hr] Hl].
  exists d, r. repeat split; [| assumption | assumption | lia].
  unfold is_Q, code in Hq. apply Z.eqb_eq in Hq.
  assert (Hn : nat_of_ascii q = 81%nat) by lia.
  rewrite <- (ascii_nat_embedding q), Hn. reflexivity.
Qed.

Lemma digit_not_sep (c : ascii) :
  is_digit c = true -> is_semi c = false /\ Ascii.eqb c ";"%char = false.
Proof.
  intros H.
  destruct (Ascii.eqb_spec c ";"%char) as [->|_]; [vm_compute in H; discriminate |].
  unfold is_digit, is_semi in *. rewrite andb_true_iff, !Z.leb_le in H.
  split; [apply Z.eqb_neq; lia | reflexivity].
Qed.

Lemma nonzero_digit_is_digit (c : ascii) : is_nonzero_digit c = true -> is_digit c = true.
Proof.
  unfold is_nonzero_digit, is_digit. rewrite !andb_true_iff, !Z.leb_le. lia.
Qed.

(** No whitespace character ends in a digit. *)
Lemma strip_rev_digit (c : ascii) (s : string) :
  is_digit c = true -> strip_ws (map str_rev ws_chars) EmptyString (String c s) = String c s.
Proof.
  intros H. destruct c as [[] [] [] [] [] [] [] []]; cbv in H; try discriminate H; reflexivity.
Qed.

Lemma str_rev_digits (x : string) :
  x <> EmptyString -> str_forallb is_digit x = true ->
  exists c y, str_rev x = String c y /\ is_digit c = true.
Proof.
  induction x as [|c x IH]; intros Hne Hx; [contradiction |].
  simpl in Hx. apply andb_true_iff in Hx as [Hc Hx]. simpl.
  destruct x as [|c' x'].
  - exists c, EmptyString. split; [reflexivity | exact Hc].
  - destruct (IH ltac:(discriminate) Hx) as (c1 & y & Hy & Hd).
    rewrite Hy. exists c1, (y +:+ String c EmptyString). split; [reflexivity | exact Hd].
Qed.

(** The automaton of [RE_WIKIDATA_MULTI_VALUE] on the pieces of a list. *)
Lemma qrun_digits (r t : string) (k : nat) (semi : bool) :
  str_forallb is_digit r = true -> (String.length r <= k)%nat ->
  qrun (QDigits k) semi (r +:+ t) = qrun (QDigits (k - String.length r)) semi t.
Proof.
  revert k. induction r as [|c r IH]; intros k Hr Hl; simpl.
  - rewrite Nat.sub_0_r. reflexivity.
  - simpl in Hr, Hl. apply andb_true_iff in Hr as [Hc Hr].
    rewrite ?str_app_cons; simpl. rewrite Hc.
    destruct (digit_not_sep c Hc) as (Hs & _). rewrite Hs, orb_false_r.
    destruct k as [|k]; [lia |]. apply IH; [exact Hr | lia].
Qed.

Lemma qrun_qid (st : qstate) (i t : string) (semi : bool) :
  qstep st "Q"%char = QFirst -> RE_WIKIDATA_VALUE i = true ->
  exists k, qrun st semi (i +:+ t) = qrun (QDigits k) semi t.
Proof.
  intros Hst Hi. destruct (valid_qid_shape i Hi) as (d & r & -> & Hd & Hr & Hl).
  rewrite ?str_app_cons; simpl. rewrite Hst. simpl. rewrite Hd.
  assert (Hs : is_semi d = false)
    by (apply (digit_not_sep d (nonzero_digit_is_digit d Hd))).
  change (is_semi "Q"%char) with false. rewrite Hs, !orb_false_r.
  exists (18 - String.length r)%nat.
  apply qrun_digits; assumption.
Qed.

Lemma qrun_ws_semi (a t : string) (k : nat) (semi : bool) :
  ws_run a ->
  qrun (QDigits k) semi (a +:+ String ";"%char t) = qrun (QWs true EmptyString) true t.
Proof.
  intros (ws & Hws & ->). destruct Hws as [|w ws Hw Hws].
  - destruct semi; reflexivity.
  - destruct (ws_char_facts w Hw) as (_ & W2 & _).
    unfold concat_str. cbn [fold_right]. rewrite str_app_assoc, W2.
    fold (concat_str ws). rewrite (proj1 (ws_run_facts (concat_str ws) (ex_intro _ ws (conj Hws eq_refl)))).
    destruct semi; reflexivity.
Qed.

Lemma qrun_seps (rest : list (string * string * string)) (k : nat) (semi : bool) :
  Forall sep_ok rest ->
  qrun (QDigits k) semi (concat_str (map sep_text rest)) =
  match rest with [] => semi | _ => true end.
Proof.
  revert k semi. induction rest as [|[[a b] i] rest IH]; intros k semi Hok; [reflexivity |].
  inversion Hok as [|? ? Hx Hrest]; subst. destruct Hx as (Ha & Hb & Hi).
  unfold concat_str. cbn [map fold_right]. fold (concat_str (map sep_text rest)).
  unfold sep_text at 1. rewrite !str_app_assoc. change (";" +:+ ?x) with (String ";"%char x).
  rewrite qrun_ws_semi by exact Ha. rewrite (proj1 (ws_run_facts b Hb)).
  destruct (qrun_qid (QWs true EmptyString) i (concat_str (map sep_text rest)) true eq_refl Hi)
    as [k' ->].
  rewrite IH by exact Hrest. destruct rest; reflexivity.
Qed.

Lemma multi_value_matches (id0 : string) (rest : list (string * string * string)) :
  RE_WIKIDATA_VALUE id0 = true -> rest <> [] -> Forall sep_ok rest ->
  RE_WIKIDATA_MULTI_VALUE (multi_value id0 rest) = true.
Proof.
  intros H0 Hne Hok. unfold RE_WIKIDATA_MULTI_VALUE, multi_value.
  destruct (qrun_qid QStart id0 (concat_str (map sep_text rest)) false eq_refl H0) as [k ->].
  rewrite qrun_seps by exact Hok. destruct rest; [contradiction | reflexivity].
Qed.

Lemma multi_value_not_single (id0 : string) (rest : list (string * string * string)) :
  RE_WIKIDATA_VALUE id0 = true -> rest <> [] ->
  RE_WIKIDATA_VALUE (multi_value id0 rest) = false.
Proof.
  intros H0 Hne. destruct (valid_qid_shape id0 H0) as (d & r & -> & _ & _ & _).
  destruct rest as [|[[a b] i] rest]; [contradiction |].
  unfold multi_value, RE_WIKIDATA_VALUE. rewrite !str_app_cons.
  unfold concat_str; simpl. rewrite !str_forallb_app.
  change (";" +:+ ?x) with (String ";"%char x). simpl.
  rewrite !andb_false_r. reflexivity.
Qed.

(** [str::split(';')] and [str::trim] on the pieces of a list. *)
Lemma str_split_nonempty (t : string) : exists p ps, str_split ";"%char t = p :: ps.
Proof.
  destruct t as [|c t]; simpl; [eauto |].
  destruct (Ascii.eqb c ";"%char); [eauto |]. destruct (str_split ";"%char t); eauto.
Qed.

Lemma str_split_app (s t : string) (p : string) (ps : list string) :
  no_semi s = true -> str_split ";"%char t = p :: ps ->
  str_split ";"%char (s +:+ t) = (s +:+ p) :: ps.
Proof.
  intros Hs Ht. induction s as [|c s IH]; [exact Ht |].
  simpl in Hs. apply andb_true_iff in Hs as [Hc Hs]. apply negb_true_iff in Hc.
  rewrite ?str_app_cons; simpl. rewrite Hc, (IH Hs). reflexivity.
Qed.

Lemma str_app_split_nil (s : string) :
  no_semi s = true -> str_split ";"%char (s +:+ EmptyString) = [s +:+ EmptyString].
Proof. intros Hs. apply (str_split_app s EmptyString EmptyString []); [exact Hs | reflexivity]. Qed.

Lemma qid_facts (i : string) : RE_WIKIDATA_VALUE i = true -> no_semi i = true.
Proof.
  intros Hi. destruct (valid_qid_shape i Hi) as (d & r & -> & Hd & Hr & _).
  apply nonzero_digit_is_digit in Hd.
  assert (Hall : forall x, str_forallb is_digit x = true -> no_semi x = true).
  { unfold no_semi.
    induction x as [|c x IH]; [reflexivity |]. simpl. rewrite andb_true_iff.
    intros [Hc Hx]. destruct (digit_not_sep c Hc) as (_ & He).
    rewrite He. simpl. exact (IH Hx). }
  destruct (digit_not_sep d Hd) as (_ & He). pose proof (Hall r Hr) as H1.
  unfold no_semi in *. simpl. rewrite He, H1. reflexivity.
Qed.

Lemma trim_piece (b i a : string) :
  ws_run b -> ws_run a -> RE_WIKIDATA_VALUE i = true ->
  trim (b +:+ i +:+ a) = i.
Proof.
  intros Hb Ha Hi. unfold trim, trim_start.
  rewrite (proj1 (proj2 (ws_run_facts b Hb))).
  destruct (valid_qid_shape i Hi) as (d & r & -> & Hd & Hr & _).
  assert (H1 : strip_ws ws_chars EmptyString (String "Q"%char (String d r) +:+ a) =
               String "Q"%char (String d r) +:+ a) by (rewrite str_app_cons; reflexivity).
  rewrite H1, str_rev_app, (proj1 (proj2 (proj2 (ws_run_facts a Ha)))).
  destruct (str_rev_digits (String d r) ltac:(discriminate))
    as (c & y & Hy & Hc); [simpl; rewrite (nonzero_digit_is_digit d Hd), Hr; reflexivity |].
  change (str_rev (String "Q"%char (String d r))) with
    (str_rev (String d r) +:+ String "Q"%char EmptyString).
  rewrite Hy, str_app_cons, strip_rev_digit by exact Hc.
  rewrite <- str_app_cons, <- Hy.
  apply (str_rev_involutive (String "Q"%char (String d r))).
Qed.

Lemma split_trim_seps (rest : list (string * string * string)) (b i : string) :
  ws_run b -> RE_WIKIDATA_VALUE i = true -> Forall sep_ok rest ->
  map trim (str_split ";"%char (b +:+ i +:+ concat_str (map sep_text rest))) =
  i :: map sep_id rest.
Proof.
  revert b i. induction rest as [|[[a' b'] i'] rest IH]; intros b i Hb Hi Hok.
  - pose proof (qid_facts i Hi) as Hs.
    unfold concat_str; cbn [map fold_right]. rewrite str_app_nil_r.
    assert (Hi1 : str_split ";"%char i = [i]).
    { rewrite <- (str_app_nil_r i) at 1.
      rewrite (str_app_split_nil i Hs). rewrite str_app_nil_r. reflexivity. }
    rewrite (str_split_app b i i [] (proj2 (proj2 (proj2 (ws_run_facts b Hb)))) Hi1). cbn [map].
    replace (b +:+ i) with (b +:+ i +:+ EmptyString) by (rewrite str_app_nil_r; reflexivity).
    rewrite trim_piece; [reflexivity | exact Hb | exists []; split; [constructor | reflexivity] | exact Hi].
  - inversion Hok as [|? ? Hx Hrest]; subst. destruct Hx as (Ha' & Hb' & Hi').
    pose proof (qid_facts i Hi) as Hs.
    unfold concat_str. cbn [map fold_right]. fold (concat_str (map sep_text rest)).
    unfold sep_text at 1. rewrite !str_app_assoc. change (";" +:+ ?x) with (String ";"%char x).
    destruct (str_split_nonempty (b' +:+ i' +:+ concat_str (map sep_text rest))) as (p & ps & Hp).
    assert (Hsplit : str_split ";"%char (String ";"%char (b' +:+ i' +:+ concat_str (map sep_text rest)))
                     = EmptyString :: p :: ps) by (simpl; rewrite Hp; reflexivity).
    rewrite (str_split_app b _ _ _ (proj2 (proj2 (proj2 (ws_run_facts b Hb))))
               (str_split_app i _ _ _ Hs
                  (str_split_app a' _ _ _ (proj2 (proj2 (proj2 (ws_run_facts a' Ha')))) Hsplit))).
    rewrite !str_app_nil_r. simpl. rewrite trim_piece by assumption. f_equal.
    change (trim p :: map trim ps) with (map trim (p :: ps)).
    rewrite <- Hp. apply IH; assumption.
Qed.

Lemma wikidata_key_not_created_by (key : string) :
  str_contains key "wikidata" = true -> String.eqb key "created_by" = false.
Proof.
  intros H. destruct (String.eqb_spec key "created_by") as [->|]; [discriminate | reflexivity].
Qed.

(** C9 (as the code does it). For a tag whose key is a valid local name
    containing [wikidata], a value [Q..;Q..;...] of [n >= 2] identifiers
    ([Q], a non-zero digit, at most 18 more digits), with whitespace
    (any character of Unicode White_Space, the no-break space U+00A0
    among them) allowed only around the semicolons, is rendered as the single clause
    [osmt:<key> wd:<id1>,...,wd:<idn>;] with the identifiers in input
    order; a value that matches neither the single-identifier nor the
    list expression is rendered as the generic quoted string. *)
Theorem push_tag_wikidata (value key : string) :
  RE_SIMPLE_LOCAL_NAME key = true -> str_contains key "wikidata" = true ->
  (forall (id0 : string) (rest : list (string * string * string)),
     RE_WIKIDATA_VALUE id0 = true -> rest <> [] -> Forall sep_ok rest ->
     push_tag value key (multi_value id0 rest) =
     value +:+ "osmt:" +:+ key +:+ " " +:+
       join "," (map (fun i => "wd:" +:+ i) (id0 :: map sep_id rest)) +:+ ";" +:+ nl) /\
  (forall val : string,
     RE_WIKIDATA_VALUE val = false -> RE_WIKIDATA_MULTI_VALUE val = false ->
     push_tag value key val = value +:+ "osmt:" +:+ key +:+ " " +:+ XsdStr val +:+ ";" +:+ nl).
Proof.
  intros Hk Hw. unfold push_tag.
  rewrite (wikidata_key_not_created_by key Hw), Hk, Hw. simpl negb. cbv iota.
  split.
  - intros id0 rest H0 Hne Hok.
    rewrite (multi_value_not_single id0 rest H0 Hne), (multi_value_matches id0 rest H0 Hne Hok).
    rewrite <- (map_map trim (XsdRaw "wd")).
    unfold multi_value. rewrite <- (str_app_nil_l (id0 +:+ _)).
    rewrite (split_trim_seps rest EmptyString id0 ws_run_nil H0 Hok).
    unfold push_value, XsdIter. rewrite ?str_app_assoc. reflexivity.
  - intros val H1 H2. rewrite H1, H2. unfold push_value. rewrite ?str_app_assoc. reflexivity.
Qed.

Lemma push_tag_wikidata_witness :
  RE_SIMPLE_LOCAL_NAME "wikidata" = true /\ str_contains "wikidata" "wikidata" = true /\
  push_tag EmptyString "wikidata" (multi_value "Q1" [(bytes [194; 160]%nat, " ", "Q42")]) =
  EmptyString +:+ "osmt:" +:+ "wikidata" +:+ " " +:+
    join "," (map (fun i => "wd:" +:+ i) ("Q1" :: map sep_id [(bytes [194; 160]%nat, " ", "Q42")])) +:+
    ";" +:+ nl.
Proof.
  split; [reflexivity | split; [reflexivity |]].
  apply (proj1 (push_tag_wikidata EmptyString "wikidata" eq_refl eq_refl)
           "Q1" [(bytes [194; 160]%nat, " ", "Q42")] eq_refl ltac:(discriminate)).
  constructor; [| constructor]. simpl.
  split; [| split; [| reflexivity]]; apply ws_run_char; simpl;
    repeat (first [left; reflexivity | right]).
Defined.

(** C9 fails as stated: two valid identifiers with whitespace before the
    first one do not match [RE_WIKIDATA_MULTI_VALUE], so the value is
    rendered as a quoted string, not as a list of references. *)
Lemma push_tag_wikidata_leading_space_cex :
  RE_WIKIDATA_VALUE "Q1" = true /\ RE_WIKIDATA_VALUE "Q2" = true /\
  RE_WIKIDATA_MULTI_VALUE " Q1;Q2" = false /\
  push_tag EmptyString "wikidata" " Q1;Q2" =
    "osmt:wikidata " +:+ dq +:+ " Q1;Q2" +:+ dq +:+ ";" +:+ nl.
Proof. vm_compute. repeat split. Qed.

(* ================================================================== *)
(** * Further properties of the code *)

Lemma civil_year_bounds (days : Z) :
  -93000000 <= days <= 93000000 ->
  let '(y, _, _) := civil_from_days days in -262144 <= y <= 262143.
Proof.
  intros H. unfold civil_from_days.
  set (z := days + 719468). set (era := z / 146097).
  set (doe := z - era * 146097).
  assert (Hdoe : 0 <= doe < 146097) by (unfold doe, era; Z.to_euclidean_division_equations; lia).
  assert (Hera : -632 <= era <= 641) by (unfold era, z; Z.to_euclidean_division_equations; lia).
  set (yoe := (doe - doe / 1460 + doe / 36524 - doe / 146096) / 365).
  assert (Hyoe : 0 <= yoe <= 400) by (unfold yoe; Z.to_euclidean_division_equations; lia).
  cbv zeta. destruct (_ <=? 2); lia.
Qed.

(** X1: within 8*10^15 milliseconds of the epoch, [to_utc] panics exactly
    when the timestamp is negative and not a whole number of seconds (the
    negative remainder wraps through [as u32] past 2*10^9 nanoseconds);
    otherwise the instant has the truncated seconds and the millisecond
    remainder as its nanosecond field. *)
Theorem to_utc_spec (ts : Z) :
  -8000000000000000 <= ts < 8000000000000000 ->
  to_utc ts = if (ts <? 0) && negb (Z.rem ts 1000 =? 0) then None
              else Some (mkDateTime (Z.quot ts 1000) (Z.rem ts 1000)).
Proof.
  intros H. unfold to_utc, timestamp_opt.
  assert (Hd : -93000000 <= Z.quot ts 1000 / 86400 <= 93000000)
    by (Z.to_euclidean_division_equations; nia).
  pose proof (civil_year_bounds _ Hd) as Hy.
  destruct (civil_from_days _) as [[y m] d].
  destruct Hy as [Hy1 Hy2]. apply Z.leb_le in Hy1, Hy2. rewrite Hy1, Hy2.
  destruct (Z.ltb_spec ts 0) as [Hneg|Hpos].
  - destruct (Z.eqb_spec (Z.rem ts 1000) 0) as [E|E]; simpl.
    + rewrite E. reflexivity.
    + assert (Hn : Z.rem ts 1000 mod 2 ^ 32 = Z.rem ts 1000 + 2 ^ 32).
      { rewrite <- (Z.mod_add _ 1) by lia. apply Z.mod_small.
        Z.to_euclidean_division_equations; nia. }
      rewrite Hn. replace (Z.rem ts 1000 + 2 ^ 32 <? 2000000000) with false; [reflexivity|].
      symmetry. apply Z.ltb_ge. Z.to_euclidean_division_equations; nia.
  - assert (Hr0 : 0 <= Z.rem ts 1000 < 1000) by (Z.to_euclidean_division_equations; nia).
    rewrite (Z.mod_small _ (2 ^ 32)) by lia. simpl.
    replace (Z.rem ts 1000 <? 2000000000) with true by (symmetry; apply Z.ltb_lt; lia).
    reflexivity.
Qed.

Lemma pad_dec_split (k w : nat) (n : Z) :
  0 <= n -> pad_dec (k + w) n = pad_dec k (n / 10 ^ Z.of_nat w) +:+ pad_dec w n.
Proof.
  revert n. induction w as [|w IH]; intros n Hn.
  - rewrite Nat.add_0_r. simpl. rewrite Z.div_1_r, str_app_nil_r. reflexivity.
  - rewrite Nat.add_succ_r. simpl. rewrite IH by (apply Z.div_pos; lia).
    rewrite str_app_assoc, Z.div_div by lia.
    rewrite Nat2Z.inj_succ, Z.pow_succ_r by lia. reflexivity.
Qed.

Lemma pad_dec_zero (k : nat) : pad_dec k 0 = zeros k.
Proof.
  induction k as [|k IH]; [reflexivity |]. simpl pad_dec. rewrite Zdiv_0_l, IH.
  clear IH. induction k as [|k IH]; [reflexivity |]. simpl. rewrite str_app_cons, IH. reflexivity.
Qed.

(** X2: for a timestamp in [0, 8*10^15), [XsdDateTime] renders the
    whole second and, when the milliseconds [m] are not zero, the nine-digit
    fraction [.000000mmm]: the milliseconds come out as nanoseconds. *)
Theorem xsd_datetime_fraction (ts : Z) :
  0 <= ts < 8000000000000000 ->
  exists base,
    dt_display (mkDateTime (ts / 1000) 0) = base +:+ " UTC" /\
    XsdDateTime ts =
      Some (dq +:+ base +:+
            (if ts mod 1000 =? 0 then EmptyString
             else "." +:+ "000000" +:+ pad_dec 3 (ts mod 1000)) +:+
            " UTC" +:+ dq +:+ "^^xsd:dateTime").
Proof.
  intros H. unfold XsdDateTime. rewrite to_utc_spec by lia.
  replace ((ts <? 0) && negb (Z.rem ts 1000 =? 0)) with false
    by (symmetry; apply andb_false_iff; left; apply Z.ltb_ge; lia).
  rewrite Z.quot_div_nonneg, Z.rem_mod_nonneg by lia.
  assert (Hr : 0 <= ts mod 1000 < 1000) by (apply Z.mod_pos_bound; lia).
  unfold dt_display; cbn [dt_secs dt_nsecs].
  destruct (civil_from_days (ts / 1000 / 86400)) as [[y m] d].
  replace (1000000000 <=? ts mod 1000) with false by (symmetry; apply Z.leb_gt; lia).
  change (1000000000 <=? 0) with false. cbv beta iota zeta.
  exists (year_display y +:+ "-" +:+ pad_dec 2 m +:+ "-" +:+ pad_dec 2 d +:+ " " +:+
          pad_dec 2 (ts / 1000 mod 86400 / 3600) +:+ ":" +:+
          pad_dec 2 (ts / 1000 mod 86400 mod 3600 / 60) +:+ ":" +:+
          pad_dec 2 (ts / 1000 mod 86400 mod 60)).
  split.
  - change (0 =? 0) with true. cbv iota. rewrite ?str_app_nil_l, ?str_app_assoc. reflexivity.
  - f_equal. destruct (Z.eqb_spec (ts mod 1000) 0) as [E|E].
    + rewrite ?str_app_nil_l, ?str_app_assoc. reflexivity.
    + rewrite (Z.mod_small (ts mod 1000) 1000000) by lia.
      rewrite (Z.mod_small (ts mod 1000) 1000) by lia.
      replace (ts mod 1000 =? 0) with false by (symmetry; apply Z.eqb_neq; exact E).
      change 9%nat with (6 + 3)%nat. rewrite pad_dec_split by lia.
      rewrite (Z.div_small (ts mod 1000) (10 ^ Z.of_nat 3))
        by (change (10 ^ Z.of_nat 3) with 1000; lia).
      rewrite pad_dec_zero.
      rewrite ?str_app_assoc. reflexivity.
Qed.

(** ** XsdStr *)







Lemma str_app_inv_l (a b c : string) : a +:+ b = a +:+ c -> b = c.
Proof.
  induction a as [|x a IH]; [trivial |]. rewrite !str_app_cons. intros H. injection H. exact IH.
Qed.

Lemma str_app_inv_r (a b c : string) : a +:+ c = b +:+ c -> a = b.
Proof.
  intros H. apply (f_equal str_rev) in H. rewrite !str_rev_app in H.
  apply str_app_inv_l in H. rewrite <- (str_rev_involutive a), H. apply str_rev_involutive.
Qed.


(** ** RE_SIMPLE_LOCAL_NAME *)

Lemma str_snoc_nonempty (t : string) (c : ascii) : t +:+ String c EmptyString <> EmptyString.
Proof. destruct t; rewrite ?str_app_cons, ?str_app_nil_l; discriminate. Qed.

Lemma str_snoc_length (t : string) (c : ascii) :
  String.length (t +:+ String c EmptyString) = S (String.length t).
Proof. rewrite str_app_length. simpl. lia. Qed.

Lemma local_name_tail_eq (f : nat) (s : string) :
  local_name_tail f s =
  match s with
  | EmptyString => false
  | String c EmptyString => is_word c
  | String c r => match f with O => false | S f' => is_word_inner c && local_name_tail f' r end
  end.
Proof. destruct f; reflexivity. Qed.

Lemma local_name_tail_spec (f : nat) (s : string) :
  local_name_tail f s = true <->
  exists t c, s = t +:+ String c EmptyString /\ is_word c = true /\
              str_forallb is_word_inner t = true /\ (String.length t <= f)%nat.
Proof.
  revert f. induction s as [|x r IH]; intros f; rewrite local_name_tail_eq.
  - split; [intros ?; discriminate |]. intros (t & c & E & _). symmetry in E.
    destruct (str_snoc_nonempty t c E).
  - destruct r as [|y r'].
    + split.
      * intros H. exists EmptyString, x. repeat split; [exact H | simpl; lia].
      * intros (t & c & E & Hc & _ & _). destruct t as [|t0 t].
        -- rewrite str_app_nil_l in E. injection E as ->. exact Hc.
        -- rewrite str_app_cons in E. injection E as _ E. symmetry in E.
           exact (False_ind _ (str_snoc_nonempty t c E)).
    + destruct f as [|f'].
      * split; [intros ?; discriminate |]. intros (t & c & E & _ & _ & Hl).
        destruct t as [|t0 t]; [| simpl in Hl; lia].
        rewrite str_app_nil_l in E. discriminate.
      * rewrite andb_true_iff, IH. split.
        -- intros [Hx (t & c & E & Hc & Ht & Hl)]. exists (String x t), c.
           rewrite str_app_cons, <- E. simpl. rewrite Hx, Ht. repeat split; [exact Hc | lia].
        -- intros (t & c & E & Hc & Ht & Hl). destruct t as [|t0 t].
           ++ rewrite str_app_nil_l in E. discriminate.
           ++ rewrite str_app_cons in E. injection E as -> E. simpl in Ht, Hl.
              apply andb_true_iff in Ht as [Hx Ht]. split; [exact Hx |].
              exists t, c. repeat split; [exact E | exact Hc | exact Ht | lia].
Qed.

Lemma is_word_inner_of_word (c : ascii) : is_word c = true -> is_word_inner c = true.
Proof. unfold is_word_inner. intros ->. reflexivity. Qed.

(** X4: [RE_SIMPLE_LOCAL_NAME] accepts exactly the keys of 1 to 60
    characters drawn from [[-:0-9a-zA-Z_]] whose first and last characters
    are in [[0-9a-zA-Z_]]. *)
Theorem RE_SIMPLE_LOCAL_NAME_spec (s : string) :
  RE_SIMPLE_LOCAL_NAME s = true <->
  (1 <= String.length s <= 60)%nat /\ str_forallb is_word_inner s = true /\
  (exists c t, s = String c t /\ is_word c = true) /\
  (exists t c, s = t +:+ String c EmptyString /\ is_word c = true).
Proof.
  destruct s as [|x r].
  - simpl. split; [intros ?; discriminate |]. intros [H _]. lia.
  - destruct r as [|y r'].
    + simpl. split.
      * intros H. rewrite (is_word_inner_of_word x H). repeat split; try lia.
        -- exists x, EmptyString. auto.
        -- exists EmptyString, x. auto.
      * intros (_ & _ & (c & t & E & Hc) & _). injection E as -> _. exact Hc.
    + change (RE_SIMPLE_LOCAL_NAME (String x (String y r')))
        with (is_word x && local_name_tail 58 (String y r')).
      rewrite andb_true_iff, local_name_tail_spec. split.
      * intros [Hx (t & c & E & Hc & Ht & Hl)]. rewrite E. simpl.
        rewrite str_snoc_length, str_forallb_app, (is_word_inner_of_word x Hx), Ht. simpl.
        rewrite (is_word_inner_of_word c Hc). repeat split; try lia.
        -- exists x, (t +:+ String c EmptyString). auto.
        -- exists (String x t), c. rewrite str_app_cons. auto.
      * intros (Hl & Hin & (c0 & t0 & E0 & Hc0) & (t & c & E & Hc)).
        injection E0 as -> _. split; [exact Hc0 |].
        destruct t as [|t1 t].
        -- rewrite str_app_nil_l in E. discriminate.
        -- rewrite str_app_cons in E. injection E as _ E.
           exists t, c. rewrite E in Hin, Hl. simpl in Hin, Hl. rewrite str_snoc_length in Hl.
           rewrite str_forallb_app in Hin.
           repeat split; [exact E | exact Hc | | simpl in Hl; lia].
           destruct (str_forallb is_word_inner t); [reflexivity |].
           rewrite andb_false_r in Hin. discriminate.
Qed.

(** ** Wikipedia tags *)

Definition lang_ok (l : string) : bool := str_forallb (fun c => is_lower c || (code c =? 45)) l.
Definition no_newline (s : string) : bool := str_forallb (fun x => negb (code x =? 10)) s.

Lemma wiki_lang_app (lang acc title : string) :
  lang_ok lang = true ->
  wiki_lang acc (lang +:+ String ":"%char title) =
  if negb (String.eqb (acc +:+ lang) EmptyString) && negb (String.eqb title EmptyString)
     && no_newline title
  then Some (acc +:+ lang, title) else None.
Proof.
  revert acc. induction lang as [|c l IH]; intros acc Hl.
  - rewrite str_app_nil_l, str_app_nil_r. simpl. unfold no_newline.
    destruct (String.eqb acc EmptyString), (String.eqb title EmptyString); reflexivity.
  - simpl in Hl. apply andb_true_iff in Hl as [Hc Hl].
    rewrite str_app_cons. simpl. rewrite Hc, IH by exact Hl.
    rewrite str_app_assoc. reflexivity.
Qed.

Lemma wiki_lang_some (acc s l t : string) :
  wiki_lang acc s = Some (l, t) ->
  exists lang, l = acc +:+ lang /\ s = lang +:+ String ":"%char t /\ lang_ok lang = true /\
    l <> EmptyString /\ t <> EmptyString /\ no_newline t = true.
Proof.
  revert acc. induction s as [|c r IH]; intros acc H; [discriminate |].
  simpl in H. destruct (is_lower c || (code c =? 45)) eqn:Hc.
  - destruct (IH _ H) as (lang & -> & -> & Hl & Hne & Ht & Hn).
    exists (String c lang). rewrite str_app_assoc in Hne |- *. repeat split; auto.
    unfold lang_ok in *. simpl. rewrite Hc, Hl. reflexivity.
  - destruct ((code c =? 58) && negb (String.eqb acc EmptyString)) eqn:E; [|discriminate].
    destruct (negb (String.eqb r EmptyString) && str_forallb (fun x => negb (code x =? 10)) r)
      eqn:E2; [|discriminate].
    injection H as <- <-. apply andb_true_iff in E as [E1 E]. apply andb_true_iff in E2 as [E2 E3].
    exists EmptyString. rewrite str_app_nil_r, str_app_nil_l. repeat split; auto.
    + f_equal. apply Z.eqb_eq in E1. unfold code in E1.
      assert (Hn : nat_of_ascii c = 58%nat) by lia.
      rewrite <- (ascii_nat_embedding c), Hn. reflexivity.
    + destruct (String.eqb_spec acc EmptyString); [discriminate | assumption].
    + destruct (String.eqb_spec r EmptyString); [discriminate | assumption].
Qed.

Lemma wikipedia_key_not_created_by (key : string) :
  str_contains key "wikipedia" = true -> String.eqb key "created_by" = false.
Proof.
  intros H. destruct (String.eqb_spec key "created_by") as [->|]; [discriminate | reflexivity].
Qed.

Lemma push_tag_wikipedia_eq (value key lang title : string) :
  RE_SIMPLE_LOCAL_NAME key = true -> str_contains key "wikidata" = false ->
  str_contains key "wikipedia" = true ->
  lang <> EmptyString -> lang_ok lang = true ->
  title <> EmptyString -> no_newline title = true ->
  push_tag value key (lang +:+ ":" +:+ title) =
  value +:+ "osmt:" +:+ key +:+ " <https://" +:+ lang +:+ ".wikipedia.org/wiki/" +:+
    utf8_percent_encode (replace_space title) +:+ ">;" +:+ nl.
Proof.
  intros Hk Hd Hp Hl Hlo Ht Hn. unfold push_tag.
  rewrite (wikipedia_key_not_created_by key Hp), Hk, Hd, Hp. cbv iota. simpl negb. cbv iota.
  unfold RE_WIKIPEDIA_VALUE. change (":" +:+ title) with (String ":"%char title).
  rewrite wiki_lang_app by exact Hlo. rewrite str_app_nil_l.
  destruct (String.eqb_spec lang EmptyString); [contradiction |].
  destruct (String.eqb_spec title EmptyString); [contradiction |]. rewrite Hn. simpl.
  unfold push_value, XsdRaw, XsdWikipedia. rewrite ?str_app_assoc. reflexivity.
Qed.

(** X5: under a valid key that contains [wikipedia] and not [wikidata], a
    value [lang:title] (non-empty [lang] of [[-a-z]], non-empty title on one
    line) becomes the IRI of the article, the title with spaces as [_] and
    percent-encoded; a value of no such shape is written as a string. *)
Theorem push_tag_wikipedia (value key : string) :
  RE_SIMPLE_LOCAL_NAME key = true -> str_contains key "wikidata" = false ->
  str_contains key "wikipedia" = true ->
  (forall lang title,
     lang <> EmptyString -> lang_ok lang = true ->
     title <> EmptyString -> no_newline title = true ->
     push_tag value key (lang +:+ ":" +:+ title) =
     value +:+ "osmt:" +:+ key +:+ " <https://" +:+ lang +:+ ".wikipedia.org/wiki/" +:+
       utf8_percent_encode (replace_space title) +:+ ">;" +:+ nl) /\
  (forall val,
     (forall lang title, val = lang +:+ ":" +:+ title ->
        lang <> EmptyString -> lang_ok lang = true -> title <> EmptyString ->
        no_newline title = false) ->
     push_tag value key val = value +:+ "osmt:" +:+ key +:+ " " +:+ XsdStr val +:+ ";" +:+ nl).
Proof.
  intros Hk Hd Hp. split.
  - intros lang title. apply push_tag_wikipedia_eq; assumption.
  - intros val Hno. unfold push_tag.
    rewrite (wikipedia_key_not_created_by key Hp), Hk, Hd, Hp. cbv iota. simpl negb. cbv iota.
    destruct (RE_WIKIPEDIA_VALUE val) as [[l t]|] eqn:E.
    + exfalso. destruct (wiki_lang_some _ _ _ _ E) as (lang & El & Ev & Hl & Hne & Ht & Hn).
      rewrite str_app_nil_l in El. subst l.
      rewrite (Hno lang t Ev Hne Hl Ht) in Hn. discriminate.
    + unfold push_value, XsdRaw. rewrite ?str_app_assoc. reflexivity.
Qed.

Lemma replace_space_app (a b : string) : replace_space (a +:+ b) = replace_space a +:+ replace_space b.
Proof.
  induction a as [|c a IH]; [reflexivity |]. rewrite str_app_cons. simpl. rewrite IH, str_app_assoc. reflexivity.
Qed.

Lemma utf8_percent_encode_app (a b : string) :
  utf8_percent_encode (a +:+ b) = utf8_percent_encode a +:+ utf8_percent_encode b.
Proof.
  induction a as [|c a IH]; [reflexivity |]. rewrite str_app_cons. simpl. rewrite IH, str_app_assoc. reflexivity.
Qed.

Lemma no_newline_app (a b : string) : no_newline (a +:+ b) = no_newline a && no_newline b.
Proof. apply str_forallb_app. Qed.

(** X6: under such a key the titles [a;b] and [a%3Bb] give the same
    clause: [;] is percent-encoded but [%] is not. *)
Theorem push_tag_wikipedia_semicolon_collision (value key lang a b : string) :
  RE_SIMPLE_LOCAL_NAME key = true -> str_contains key "wikidata" = false ->
  str_contains key "wikipedia" = true ->
  lang <> EmptyString -> lang_ok lang = true ->
  no_newline a = true -> no_newline b = true ->
  push_tag value key (lang +:+ ":" +:+ a +:+ ";" +:+ b) =
  push_tag value key (lang +:+ ":" +:+ a +:+ "%3B" +:+ b).
Proof.
  intros Hk Hd Hp Hl Hlo Ha Hb.
  rewrite !push_tag_wikipedia_eq; try assumption.
  - rewrite !replace_space_app, !utf8_percent_encode_app. reflexivity.
  - destruct a; rewrite ?str_app_cons, ?str_app_nil_l; discriminate.
  - rewrite !no_newline_app, Ha, Hb. reflexivity.
  - destruct a; rewrite ?str_app_cons, ?str_app_nil_l; discriminate.
  - rewrite !no_newline_app, Ha, Hb. reflexivity.
Qed.

(** ** Wikidata list values: the parse direction *)

Lemma qrun_fail (semi : bool) (s : string) : qrun QFail semi s = false.
Proof. revert semi. induction s as [|c s IH]; intros semi; [reflexivity | apply IH]. Qed.

Definition seps (rest : list (string * string * string)) : string := concat_str (map sep_text rest).

Lemma seps_cons (x : string * string * string) (rest : list (string * string * string)) :
  seps (x :: rest) = sep_text x +:+ seps rest.
Proof. reflexivity. Qed.

Lemma semi_char (c : ascii) : is_semi c = true -> c = ";"%char.
Proof.
  intros Hs. apply Z.eqb_eq in Hs. unfold code in Hs.
  assert (Hn : nat_of_ascii c = 59%nat) by lia.
  rewrite <- (ascii_nat_embedding c), Hn. reflexivity.
Qed.

(** Inside a whitespace character: the automaton reads the rest of its
    encoding, then is back between characters. *)
Lemma qrun_ws_partial (s pre : string) (m semi : bool) :
  pre <> EmptyString -> qrun (QWs m pre) semi s = true ->
  exists u s' semi', s = u +:+ s' /\ In (pre +:+ u) ws_chars /\
    qrun (QWs m EmptyString) semi' s' = true /\ (String.length s' <= String.length s)%nat.
Proof.
  revert pre semi. induction s as [|c r IH]; intros pre semi Hpre H.
  - simpl in H. discriminate H.
  - assert (Hst : qstep (QWs m pre) c = ws_step m pre c)
      by (destruct pre as [|x y]; [contradiction | destruct m; reflexivity]).
    change (qrun (qstep (QWs m pre) c) (semi || is_semi c) r = true) in H.
    rewrite Hst in H. unfold ws_step in H.
    destruct (existsb (String.eqb (pre +:+ String c EmptyString)) ws_chars) eqn:E1.
    + apply existsb_exists in E1 as (w & Hw & Heq). apply String.eqb_eq in Heq.
      exists (String c EmptyString), r, (semi || is_semi c).
      split; [reflexivity |]. split; [rewrite Heq; exact Hw |]. split; [exact H | simpl; lia].
    + destruct (existsb (str_prefix (pre +:+ String c EmptyString)) ws_chars) eqn:E2;
        [| rewrite qrun_fail in H; discriminate H].
      assert (Hne : pre +:+ String c EmptyString <> EmptyString)
        by (destruct pre; rewrite ?str_app_cons; discriminate).
      destruct (IH _ _ Hne H) as (u & s' & semi' & E & Hin & Hq & Hl).
      exists (String c u), s', semi'. rewrite E. rewrite str_app_assoc in Hin.
      split; [reflexivity |]. split; [exact Hin |]. split; [exact Hq |].
      rewrite E, str_app_length in Hl. simpl. rewrite str_app_length. lia.
Qed.

Lemma ws_step_cases (c : ascii) (r : string) (m semi : bool) :
  qrun (ws_step m EmptyString c) semi r = true ->
  exists w s' semi', String c r = w +:+ s' /\ In w ws_chars /\
    qrun (QWs m EmptyString) semi' s' = true /\ (String.length s' <= String.length r)%nat.
Proof.
  unfold ws_step. intros H.
  destruct (existsb (String.eqb (EmptyString +:+ String c EmptyString)) ws_chars) eqn:E1.
  - apply existsb_exists in E1 as (w & Hw & Heq). apply String.eqb_eq in Heq.
    simpl in Heq. subst w. exists (String c EmptyString), r, semi.
    split; [reflexivity |]. split; [exact Hw |]. split; [exact H | lia].
  - destruct (existsb (str_prefix (EmptyString +:+ String c EmptyString)) ws_chars) eqn:E2;
      [| rewrite qrun_fail in H; discriminate H].
    destruct (qrun_ws_partial r (EmptyString +:+ String c EmptyString) m semi ltac:(discriminate) H) as (u & s' & semi' & E & Hin & Hq & Hl).
    exists (String c u), s', semi'. subst r.
    split; [reflexivity |]. split; [exact Hin |]. split; [exact Hq | exact Hl].
Qed.

(** What the automaton accepts from each of its states. *)
Definition parse_inv (s : string) : Prop :=
  (forall k semi, qrun (QDigits k) semi s = true ->
     exists d rest, s = d +:+ seps rest /\ str_forallb is_digit d = true /\
       (String.length d <= k)%nat /\ Forall sep_ok rest /\ (rest <> [] \/ semi = true)) /\
  (forall semi, qrun (QWs false EmptyString) semi s = true ->
     exists a b i rest, s = a +:+ ";" +:+ b +:+ i +:+ seps rest /\ ws_run a /\
       ws_run b /\ RE_WIKIDATA_VALUE i = true /\ Forall sep_ok rest) /\
  (forall semi, qrun (QWs true EmptyString) semi s = true ->
     exists b i rest, s = b +:+ i +:+ seps rest /\
       ws_run b /\ RE_WIKIDATA_VALUE i = true /\ Forall sep_ok rest) /\
  (forall semi, qrun QFirst semi s = true ->
     exists d r rest, s = String d r +:+ seps rest /\ is_nonzero_digit d = true /\
       str_forallb is_digit r = true /\ (String.length r <= 18)%nat /\
       Forall sep_ok rest /\ (rest <> [] \/ semi = true)).

Lemma parse_inv_nil : parse_inv EmptyString.
Proof.
  repeat split; intros; simpl in *; try discriminate.
  exists EmptyString, []. split; [reflexivity |]. split; [reflexivity |].
  split; [simpl; lia |]. split; [constructor | right; assumption].
Qed.

Lemma qrun_parse (n : nat) (s : string) : (String.length s <= n)%nat -> parse_inv s.
Proof.
  revert s. induction n as [|n IHn]; intros s Hlen.
  - destruct s; [exact parse_inv_nil | simpl in Hlen; lia].
  - destruct s as [|c r]; [exact parse_inv_nil |]. simpl in Hlen.
    destruct (IHn r ltac:(lia)) as (IH1 & IH2 & IH3 & IH4).
    assert (IHs : forall s', (String.length s' <= String.length r)%nat -> parse_inv s')
      by (intros s' Hs'; apply IHn; lia).
    repeat split.
    + intros k semi H. simpl in H.
      destruct (is_digit c) eqn:Hd.
      * destruct k as [|k]; [rewrite qrun_fail in H; discriminate |].
        destruct (digit_not_sep c Hd) as (Hs & _). rewrite Hs, orb_false_r in H.
        destruct (IH1 _ _ H) as (d & rest & E & Hd' & Hl & Hok & Hne).
        exists (String c d), rest. rewrite str_app_cons, <- E. simpl. rewrite Hd, Hd'.
        repeat split; auto; lia.
      * destruct (is_semi c) eqn:Hs.
        -- destruct (IH3 _ H) as (b & i & rest & E & Hb & Hi & Hok).
           exists EmptyString, ((EmptyString, b, i) :: rest). rewrite str_app_nil_l, seps_cons.
           unfold sep_text. rewrite E, str_app_nil_l.
           split; [rewrite (semi_char c Hs), !str_app_assoc; reflexivity |].
           split; [reflexivity |]. split; [simpl; lia |].
           split; [| left; discriminate].
           constructor; [| exact Hok]. simpl. split; [exact ws_run_nil | auto].
        -- destruct (ws_step_cases c r false _ H) as (w & s' & semi' & E & Hw & Hq & Hl).
           destruct (proj1 (proj2 (IHs s' Hl)) _ Hq) as (a & b & i & rest & E2 & Ha & Hb & Hi & Hok).
           exists EmptyString, ((w +:+ a, b, i) :: rest). rewrite str_app_nil_l, seps_cons.
           unfold sep_text. rewrite E, E2, !str_app_assoc.
           split; [reflexivity |]. split; [reflexivity |]. split; [simpl; lia |].
           split; [| left; discriminate].
           constructor; [| exact Hok]. simpl.
           split; [apply ws_run_app; [apply ws_run_char, Hw | exact Ha] | auto].
    + intros semi H. simpl in H. destruct (is_semi c) eqn:Hs.
      * destruct (IH3 _ H) as (b & i & rest & E & Hb & Hi & Hok).
        exists EmptyString, b, i, rest. rewrite str_app_nil_l, E.
        split; [rewrite (semi_char c Hs); reflexivity |]. split; [exact ws_run_nil | auto].
      * destruct (ws_step_cases c r false _ H) as (w & s' & semi' & E & Hw & Hq & Hl).
        destruct (proj1 (proj2 (IHs s' Hl)) _ Hq) as (a & b & i & rest & E2 & Ha & Hb & Hi & Hok).
        exists (w +:+ a), b, i, rest. rewrite E, E2, !str_app_assoc.
        split; [reflexivity |]. split; [apply ws_run_app; [apply ws_run_char, Hw | exact Ha] | auto].
    + intros semi H. simpl in H. destruct (is_Q c) eqn:Hq.
      * destruct (IH4 _ H) as (d & r' & rest & E & Hd & Hr & Hl & Hok & _).
        exists EmptyString, (String c (String d r')), rest.
        rewrite str_app_nil_l, E, str_app_cons. split; [reflexivity |].
        split; [exact ws_run_nil |]. split; [| exact Hok].
        unfold RE_WIKIDATA_VALUE. rewrite Hq, Hd, Hr. simpl. apply Z.leb_le. lia.
      * destruct (ws_step_cases c r true _ H) as (w & s' & semi' & E & Hw & Hq' & Hl).
        destruct (proj1 (proj2 (proj2 (IHs s' Hl))) _ Hq') as (b & i & rest & E2 & Hb & Hi & Hok).
        exists (w +:+ b), i, rest. rewrite E, E2, !str_app_assoc.
        split; [reflexivity |]. split; [apply ws_run_app; [apply ws_run_char, Hw | exact Hb] | auto].
    + intros semi H. simpl in H. destruct (is_nonzero_digit c) eqn:Hd; [| rewrite qrun_fail in H; discriminate].
      destruct (digit_not_sep c (nonzero_digit_is_digit c Hd)) as (Hs & _).
      rewrite Hs, orb_false_r in H.
      destruct (IH1 _ _ H) as (d & rest & E & Hd' & Hl & Hok & Hne).
      exists c, d, rest. rewrite E, str_app_cons. split; [reflexivity |]. auto 10.
Qed.

Lemma multi_value_parse (v : string) :
  RE_WIKIDATA_MULTI_VALUE v = true ->
  exists id0 rest, v = multi_value id0 rest /\ RE_WIKIDATA_VALUE id0 = true /\
                   rest <> [] /\ Forall sep_ok rest.
Proof.
  unfold RE_WIKIDATA_MULTI_VALUE. destruct v as [|c r]; [discriminate |]. simpl.
  destruct (is_Q c) eqn:Hq; [| rewrite qrun_fail; discriminate].
  change (is_semi c) with (is_semi c). intros H.
  assert (Hs : is_semi c = false).
  { unfold is_Q, is_semi in *. apply Z.eqb_eq in Hq. rewrite Hq. reflexivity. }
  rewrite Hs in H.
  destruct (proj2 (proj2 (proj2 (qrun_parse (String.length r) r (le_n _)))) _ H) as (d & r' & rest & E & Hd & Hr & Hl & Hok & Hne).
  exists (String c (String d r')), rest. repeat split; auto.
  - rewrite E. reflexivity.
  - unfold RE_WIKIDATA_VALUE. rewrite Hq, Hd, Hr. simpl. apply Z.leb_le. lia.
  - destruct Hne as [Hne|Hne]; [exact Hne | discriminate].
Qed.

(** X7: under a valid key that contains [wikidata], a value matching
    [RE_WIKIDATA_MULTI_VALUE] is written as the comma-separated list of at
    least two [wd:] IRIs, each of a valid item id. *)
Theorem push_tag_wikidata_list_ids (value key val : string) :
  RE_SIMPLE_LOCAL_NAME key = true -> str_contains key "wikidata" = true ->
  RE_WIKIDATA_MULTI_VALUE val = true ->
  exists ids, (2 <= length ids)%nat /\ Forall (fun i => RE_WIKIDATA_VALUE i = true) ids /\
    push_tag value key val =
    value +:+ "osmt:" +:+ key +:+ " " +:+ join "," (map (fun i => "wd:" +:+ i) ids) +:+ ";" +:+ nl.
Proof.
  intros Hk Hw Hm. destruct (multi_value_parse val Hm) as (id0 & rest & -> & H0 & Hne & Hok).
  exists (id0 :: map sep_id rest). repeat split.
  - destruct rest; [contradiction | simpl; lia].
  - constructor; [exact H0 |]. apply Forall_map. eapply Forall_impl; [exact Hok |].
    intros [[a b] i] (_ & _ & Hi). exact Hi.
  - unfold push_tag. rewrite (wikidata_key_not_created_by key Hw), Hk, Hw. simpl negb. cbv iota.
    rewrite (multi_value_not_single id0 rest H0 Hne), Hm.
    rewrite <- (map_map trim (XsdRaw "wd")).
    unfold multi_value. rewrite <- (str_app_nil_l (id0 +:+ _)).
    rewrite (split_trim_seps rest EmptyString id0 ws_run_nil H0 Hok).
    unfold push_value, XsdIter. rewrite ?str_app_assoc. reflexivity.
Qed.

(** ** str_builder: add_tags and finalize *)

Definition badkey_as_key (kv : string * string) : string * string :=
  let '(k, v) := kv in if RE_SIMPLE_LOCAL_NAME k then (k, v) else (k, k).

(** X8: [StringBuf::add_tags] writes what [Parser::push_all_tags] writes
    once each invalid key's value is replaced by the key: the [osmm:badkey]
    clause of [add_tags] carries the key, that of [push_all_tags] the value. *)
Theorem add_tags_as_push_all_tags (buf : string) (tags : list (string * string)) :
  add_tags buf tags = push_all_tags buf (map badkey_as_key tags).
Proof.
  revert buf. induction tags as [|[k v] tags IH]; intros buf; [reflexivity |].
  cbn [add_tags map]. unfold badkey_as_key at 1.
  destruct (RE_SIMPLE_LOCAL_NAME k) eqn:Hk; cbn [push_all_tags]; rewrite IH; f_equal;
    unfold add_tag, push_tag, add_value, push_value; rewrite Hk; reflexivity.
Qed.

Lemma pop_snoc (s : string) (c : ascii) : pop (s +:+ String c EmptyString) = s.
Proof.
  unfold pop. rewrite str_rev_app. simpl. apply str_rev_involutive.
Qed.

Lemma pop2_add_value (b p v : string) : pop (pop (add_value b p v)) = b +:+ p +:+ " " +:+ v.
Proof.
  unfold add_value.
  replace (b +:+ p +:+ " " +:+ v +:+ ";" +:+ nl)
    with (((b +:+ p +:+ " " +:+ v) +:+ String ";"%char EmptyString) +:+ String "010"%char EmptyString)
    by (rewrite !str_app_assoc; reflexivity).
  rewrite !pop_snoc. reflexivity.
Qed.

(** X9: [StringBuf::finalize] appends the version, the user when there
    is one, the timestamp and the changeset, the last clause ending in the
    statement terminator [.] instead of [;]; it panics exactly when the
    timestamp cannot be rendered. *)
Theorem finalize_block (buf : string) (info : ElementInfo) :
  finalize buf info =
  match XsdDateTime info.(ei_milli_timestamp) with
  | None => None
  | Some t =>
      Some (buf +:+ "osmm:version " +:+ XsdInteger info.(ei_version) +:+ ";" +:+ nl +:+
            match info.(ei_user) with
            | Some u => "osmm:user " +:+ XsdStr u +:+ ";" +:+ nl
            | None => EmptyString
            end +:+
            "osmm:timestamp " +:+ t +:+ ";" +:+ nl +:+
            "osmm:changeset " +:+ XsdInteger info.(ei_changeset) +:+ "." +:+ nl)
  end.
Proof.
  unfold finalize. destruct (XsdDateTime (ei_milli_timestamp info)) as [t|]; [| reflexivity].
  rewrite pop2_add_value. f_equal. unfold add_value.
  destruct (ei_user info); rewrite ?str_app_nil_l, ?str_app_assoc; reflexivity.
Qed.

(** ** Nodes and dense nodes *)

(** X10: a [Create] of [on_node] carries the node's own timestamp; for the
    same data [on_dense_node] yields the same statement and parser except
    that the timestamp of a [Create] is 0. *)
Theorem node_handlers_ts (f64 : Type) (disp : f64 -> string) (p : Parser f64) (id : Z)
    (tags : list (string * string)) (lat lon : f64) (info : Info) :
  match on_node f64 disp p (mkNode f64 id tags lat lon info) with
  | Some (Create _ _ ts _, _) => ts = info.(milli_timestamp)
  | _ => True
  end /\
  on_dense_node f64 disp p (mkDenseNode f64 id tags lat lon info) =
  match on_node f64 disp p (mkNode f64 id tags lat lon info) with
  | Some (Create e i _ v, p') => Some (Create e i 0 v, p')
  | r => r
  end.
Proof.
  unfold on_node, on_dense_node, process_node. simpl.
  destruct (deleted info); [split; reflexivity |].
  destruct (String.eqb (push_all_tags EmptyString tags) EmptyString); [split; reflexivity |].
  unfold push_info. destruct (push_metadata _ _ _ _ _); split; reflexivity.
Qed.

(** ** Decimal rendering *)

Lemma z_to_string_inj (a b : Z) : z_to_string a = z_to_string b -> a = b.
Proof.
  unfold z_to_string. intros H. apply (f_equal NilEmpty.int_of_string) in H.
  rewrite !NilEmpty.isi in H. injection H. apply DecimalZ.to_int_inj.
Qed.

(** X11: two members with the same [XsdRelMember] IRI have the same type
    and the same id. *)
Theorem XsdRelMember_injective (m1 m2 : RelMember) :
  XsdRelMember m1 = XsdRelMember m2 ->
  m1.(member_type) = m2.(member_type) /\ m1.(member_id) = m2.(member_id).
Proof.
  destruct m1 as [i1 t1 r1], m2 as [i2 t2 r2]. unfold XsdRelMember. simpl.
  destruct t1, t2; simpl; intros H; try discriminate;
    (split; [reflexivity |]); apply z_to_string_inj; do 8 (injection H as H || idtac); exact H.
Qed.

Lemma uint_of_string_zeros (k : nat) (s : string) :
  NilEmpty.uint_of_string (zeros k +:+ s) = option_map (Nat.iter k Decimal.D0) (NilEmpty.uint_of_string s).
Proof.
  induction k as [|k IH].
  - rewrite str_app_nil_l. destruct (NilEmpty.uint_of_string s); reflexivity.
  - simpl. rewrite IH. destruct (NilEmpty.uint_of_string s); reflexivity.
Qed.

Lemma of_uint_iter_D0 (k : nat) (u : Decimal.uint) :
  Z.of_uint (Nat.iter k Decimal.D0 u) = Z.of_uint u.
Proof. induction k as [|k IH]; [reflexivity |]. simpl. exact IH. Qed.

Lemma z_to_string_pad_value (k : nat) (a : Z) :
  0 <= a ->
  option_map Z.of_int (NilEmpty.int_of_string (zeros k +:+ z_to_string a)) = Some a.
Proof.
  intros Ha. assert (Hu : exists u, Z.to_int a = Decimal.Pos u)
    by (destruct a; [eexists; reflexivity | eexists; reflexivity | lia]).
  destruct Hu as [u Hu]. unfold z_to_string. rewrite Hu.
  destruct k as [|k].
  - rewrite str_app_nil_l, NilEmpty.isi.
    transitivity (Some (Z.of_int (Z.to_int a))); [rewrite Hu; reflexivity |].
    rewrite DecimalZ.of_to. reflexivity.
  - change (zeros (S k)) with (String "0"%char (zeros k)). rewrite str_app_cons.
    unfold NilEmpty.int_of_string. change (Ascii.eqb "0" "-") with false. cbv iota.
    rewrite <- str_app_cons. change (String "0"%char (zeros k)) with (zeros (S k)).
    rewrite uint_of_string_zeros. simpl NilEmpty.string_of_int. rewrite NilEmpty.usu.
    cbn [option_map]. unfold Z.of_int. rewrite of_uint_iter_D0. f_equal.
    change (Z.of_uint u) with (Z.of_int (Decimal.Pos u)). rewrite <- Hu. apply DecimalZ.of_to.
Qed.

(** Distinct non-negative indices give distinct file names. *)
Lemma gz_file_name_injective (a b : Z) :
  0 <= a -> 0 <= b -> gz_file_name a = gz_file_name b -> a = b.
Proof.
  intros Ha Hb H. unfold gz_file_name in H.
  apply str_app_inv_l in H. apply str_app_inv_r in H. unfold pad0 in H.
  assert (E := z_to_string_pad_value (6 - String.length (z_to_string a)) a Ha).
  rewrite H, z_to_string_pad_value in E by exact Hb. injection E. auto.
Qed.

(** ** parse_block *)

Definition congM (x y : Z) : Prop := exists k, x = y + k * 2 ^ 64.

Lemma add_u64_cong (a d : Z) : congM (add_u64 a d) (a + d).
Proof.
  unfold add_u64. exists (- ((a + d) / 2 ^ 64)).
  rewrite Z.mod_eq by lia. lia.
Qed.

Definition stats_adv (s s' : Stats) (dn dw dr : Z) : Prop :=
  congM (node_count s') (node_count s + dn) /\ congM (way_count s') (way_count s + dw) /\
  congM (rel_count s') (rel_count s + dr) /\ s'.(blocks) = s.(blocks).

Lemma stats_adv_refl (s : Stats) : stats_adv s s 0 0 0.
Proof. repeat split; try (exists 0; lia). Qed.

Lemma stats_adv_trans (s1 s2 s3 : Stats) (a b c a' b' c' : Z) :
  stats_adv s1 s2 a b c -> stats_adv s2 s3 a' b' c' -> stats_adv s1 s3 (a + a') (b + b') (c + c').
Proof.
  intros ([k1 H1] & [k2 H2] & [k3 H3] & H4) ([k1' H1'] & [k2' H2'] & [k3' H3'] & H4').
  repeat split.
  - exists (k1 + k1'). lia.
  - exists (k2 + k2'). lia.
  - exists (k3 + k3'). lia.
  - congruence.
Qed.

Lemma stats_adv_eq (s s' : Stats) (a b c a' b' c' : Z) :
  stats_adv s s' a b c -> a = a' -> b = b' -> c = c' -> stats_adv s s' a' b' c'.
Proof. intros H -> -> ->. exact H. Qed.

Ltac adv_incr :=
  match goal with
  | |- context [add_u64 ?a 1] =>
      destruct (add_u64_cong a 1) as [? Hk];
      unfold stats_adv, node_count, way_count, rel_count; simpl; rewrite Hk;
      repeat split;
      first [ exists 0; lia
            | match type of Hk with _ = _ + ?k * _ => exists k; lia end ]
  end.

Lemma adv_added_nodes (s : Stats) : stats_adv s (incr_added_nodes s) 1 0 0.
Proof. unfold incr_added_nodes. adv_incr. Qed.
Lemma adv_skipped_nodes (s : Stats) : stats_adv s (incr_skipped_nodes s) 1 0 0.
Proof. unfold incr_skipped_nodes. adv_incr. Qed.
Lemma adv_deleted_nodes (s : Stats) : stats_adv s (incr_deleted_nodes s) 1 0 0.
Proof. unfold incr_deleted_nodes. adv_incr. Qed.
Lemma adv_added_ways (s : Stats) : stats_adv s (incr_added_ways s) 0 1 0.
Proof. unfold incr_added_ways. adv_incr. Qed.
Lemma adv_deleted_ways (s : Stats) : stats_adv s (incr_deleted_ways s) 0 1 0.
Proof. unfold incr_deleted_ways. adv_incr. Qed.
Lemma adv_added_rels (s : Stats) : stats_adv s (incr_added_rels s) 0 0 1.
Proof. unfold incr_added_rels. adv_incr. Qed.
Lemma adv_deleted_rels (s : Stats) : stats_adv s (incr_deleted_rels s) 0 0 1.
Proof. unfold incr_deleted_rels. adv_incr. Qed.

Section BlockProofs.

Variable f64 : Type.
Variable disp : f64 -> string.
Variable CoordSeq Geometry : Type.
Variable new_vec : list (f64 * f64) -> result CoordSeq.
Variable line_string : CoordSeq -> result Geometry.
Variable closed : Geometry -> result bool.
Variable surface : Geometry -> result Geometry.
Variable gx gy : Geometry -> result f64.
Variable lat_lon : gmap Z (f64 * f64) -> Z -> f64 * f64.

Local Abbreviation way_handler :=
  (on_way f64 disp CoordSeq Geometry new_vec line_string closed surface gx gy lat_lon).
Local Abbreviation block :=
  (parse_block f64 disp CoordSeq Geometry new_vec line_string closed surface gx gy lat_lon).
Local Abbreviation group :=
  (parse_group f64 disp CoordSeq Geometry new_vec line_string closed surface gx gy lat_lon).

Lemma emit_all_inv {A : Type} (h : Parser f64 -> A -> option (Statement * Parser f64))
    (f : gmap Z (f64 * f64) -> A -> gmap Z (f64 * f64)) (dn dw dr : Z) :
  (forall p x st p', h p x = Some (st, p') ->
     p'.(cache) = f p.(cache) x /\ stats_adv p.(stats) p'.(stats) dn dw dr) ->
  forall p xs ss p', emit_all f64 h p xs = Some (ss, p') ->
  length ss = length xs /\ p'.(cache) = fold_left f xs p.(cache) /\
  stats_adv p.(stats) p'.(stats) (Z.of_nat (length xs) * dn) (Z.of_nat (length xs) * dw)
    (Z.of_nat (length xs) * dr).
Proof.
  intros Hh p xs. revert p. induction xs as [|x xs IH]; intros p ss p' He; simpl in He.
  - injection He as <- <-. split; [reflexivity | split; [reflexivity |]].
    simpl. apply stats_adv_refl.
  - destruct (h p x) as [[st p1]|] eqn:E1; [| discriminate].
    destruct (emit_all f64 h p1 xs) as [[ss1 p2]|] eqn:E2; [| discriminate].
    injection He as <- <-. destruct (Hh _ _ _ _ E1) as [Hc1 Ha1].
    destruct (IH _ _ _ E2) as (Hl & Hc & Ha). simpl. split; [lia | split].
    + rewrite Hc, Hc1. reflexivity.
    + replace (Z.of_nat (S (length xs)) * dn) with (dn + Z.of_nat (length xs) * dn) by lia.
      replace (Z.of_nat (S (length xs)) * dw) with (dw + Z.of_nat (length xs) * dw) by lia.
      replace (Z.of_nat (S (length xs)) * dr) with (dr + Z.of_nat (length xs) * dr) by lia.
      eapply stats_adv_trans; eassumption.
Qed.

Lemma on_node_step (p : Parser f64) (n : NodeElem f64) (st : Statement) (p' : Parser f64) :
  on_node f64 disp p n = Some (st, p') ->
  p'.(cache) = store_node f64 p.(cache) (n.(node_info).(deleted), n.(node_id), n.(node_lat), n.(node_lon)) /\
  stats_adv p.(stats) p'.(stats) 1 0 0.
Proof.
  unfold on_node, process_node, store_node. destruct (deleted (node_info n)); simpl.
  - intros H. injection H as <- <-. split; [reflexivity | apply adv_deleted_nodes].
  - destruct (String.eqb _ EmptyString); simpl.
    + intros H. injection H as <- <-. split; [reflexivity | apply adv_skipped_nodes].
    + destruct (push_info _ _) as [[v ts]|]; [| discriminate].
      intros H. injection H as <- <-. split; [reflexivity | apply adv_added_nodes].
Qed.

Lemma on_dense_node_step (p : Parser f64) (n : DenseNodeElem f64) (st : Statement) (p' : Parser f64) :
  on_dense_node f64 disp p n = Some (st, p') ->
  p'.(cache) = store_node f64 p.(cache) (n.(dense_info).(deleted), n.(dense_id), n.(dense_lat), n.(dense_lon)) /\
  stats_adv p.(stats) p'.(stats) 1 0 0.
Proof.
  unfold on_dense_node, process_node, store_node. destruct (deleted (dense_info n)); simpl.
  - intros H. injection H as <- <-. split; [reflexivity | apply adv_deleted_nodes].
  - destruct (String.eqb _ EmptyString); simpl.
    + intros H. injection H as <- <-. split; [reflexivity | apply adv_skipped_nodes].
    + destruct (push_metadata _ _ _ _ _) as [v|]; [| discriminate].
      intros H. injection H as <- <-. split; [reflexivity | apply adv_added_nodes].
Qed.

Lemma on_way_step (p : Parser f64) (w : WayElem) (st : Statement) (p' : Parser f64) :
  way_handler p w = Some (st, p') ->
  p'.(cache) = p.(cache) /\ stats_adv p.(stats) p'.(stats) 0 1 0.
Proof.
  unfold on_way. destruct (deleted (way_info w)); simpl.
  - intros H. injection H as <- <-. split; [reflexivity | apply adv_deleted_ways].
  - destruct (push_info _ _) as [[v ts]|]; [| discriminate].
    destruct (parse_way_geometry _ _ _ _ _ _ _ _ _ _ _ _ _ _) as [[v' r]|]; [| discriminate].
    intros H. injection H as <- <-. split; [reflexivity | apply adv_added_ways].
Qed.

Lemma on_relation_step (p : Parser f64) (r : RelationElem) (st : Statement) (p' : Parser f64) :
  on_relation f64 p r = Some (st, p') ->
  p'.(cache) = p.(cache) /\ stats_adv p.(stats) p'.(stats) 0 0 1.
Proof.
  unfold on_relation. destruct (deleted (rel_info r)); simpl.
  - intros H. injection H as <- <-. split; [reflexivity | apply adv_deleted_rels].
  - destruct (push_info _ _) as [[v ts]|]; [| discriminate].
    intros H. injection H as <- <-. split; [reflexivity | apply adv_added_rels].
Qed.

Lemma fold_left_map {A B C : Type} (f : C -> B -> C) (g : A -> B) (xs : list A) (c : C) :
  fold_left f (map g xs) c = fold_left (fun c x => f c (g x)) xs c.
Proof. revert c. induction xs as [|x xs IH]; intros c; [reflexivity | apply IH]. Qed.

Lemma parse_group_inv (p : Parser f64) (g : Group f64) (ss : list Statement) (p' : Parser f64) :
  group p g = Some (ss, p') ->
  length ss = group_size f64 g /\
  p'.(cache) = fold_left (store_node f64) (node_entries f64 g) p.(cache) /\
  stats_adv p.(stats) p'.(stats) (Z.of_nat (length g.(g_nodes) + length g.(g_dense)))
    (Z.of_nat (length g.(g_ways))) (Z.of_nat (length g.(g_rels))).
Proof.
  unfold parse_group.
  destruct (emit_all f64 (on_node f64 disp) p (g_nodes g)) as [[s1 p1]|] eqn:E1; [| discriminate].
  destruct (emit_all f64 (on_dense_node f64 disp) p1 (g_dense g)) as [[s2 p2]|] eqn:E2; [| discriminate].
  destruct (emit_all f64 way_handler p2 (g_ways g)) as [[s3 p3]|] eqn:E3; [| discriminate].
  destruct (emit_all f64 (on_relation f64) p3 (g_rels g)) as [[s4 p4]|] eqn:E4; [| discriminate].
  intros H. injection H as <- <-.
  destruct (emit_all_inv (on_node f64 disp)
              (fun c n => store_node f64 c (n.(node_info).(deleted), n.(node_id), n.(node_lat), n.(node_lon)))
              1 0 0 on_node_step _ _ _ _ E1) as (L1 & C1 & A1).
  destruct (emit_all_inv (on_dense_node f64 disp)
              (fun c n => store_node f64 c (n.(dense_info).(deleted), n.(dense_id), n.(dense_lat), n.(dense_lon)))
              1 0 0 on_dense_node_step _ _ _ _ E2) as (L2 & C2 & A2).
  destruct (emit_all_inv way_handler (fun c _ => c) 0 1 0 on_way_step _ _ _ _ E3) as (L3 & C3 & A3).
  destruct (emit_all_inv (on_relation f64) (fun c _ => c) 0 0 1 on_relation_step _ _ _ _ E4)
    as (L4 & C4 & A4).
  split; [| split].
  - unfold group_size. rewrite !length_app. lia.
  - rewrite C4, C3, C2, C1. unfold node_entries. rewrite fold_left_app, !fold_left_map.
    assert (Hid : forall (B : Type) (xs : list B) (c : gmap Z (f64 * f64)),
               fold_left (fun c _ => c) xs c = c)
      by (intros B xs; induction xs; simpl; auto).
    rewrite !Hid. reflexivity.
  - assert (A := stats_adv_trans _ _ _ _ _ _ _ _ _ (stats_adv_trans _ _ _ _ _ _ _ _ _
                   (stats_adv_trans _ _ _ _ _ _ _ _ _ A1 A2) A3) A4).
    eapply stats_adv_eq; [exact A | lia | lia | lia].
Qed.

Lemma parse_block_inv (p : Parser f64) (groups : list (Group f64)) (ss : list Statement)
    (p' : Parser f64) :
  block p groups = Some (ss, p') ->
  length ss = list_sum (map (group_size f64) groups) /\
  p'.(cache) = fold_left (store_node f64) (concat (map (node_entries f64) groups)) p.(cache) /\
  stats_adv p.(stats) p'.(stats) (Z.of_nat (nodes_in f64 groups)) (Z.of_nat (ways_in f64 groups))
    (Z.of_nat (rels_in f64 groups)).
Proof.
  revert p ss p'. induction groups as [|g gs IH]; intros p ss p' H; simpl in H.
  - injection H as <- <-. split; [reflexivity | split; [reflexivity |]]. apply stats_adv_refl.
  - destruct (group p g) as [[s1 p1]|] eqn:E1; [| discriminate].
    destruct (block p1 gs) as [[s2 p2]|] eqn:E2; [| discriminate].
    injection H as <- <-.
    destruct (parse_group_inv _ _ _ _ E1) as (L1 & C1 & A1).
    destruct (IH _ _ _ E2) as (L2 & C2 & A2).
    split; [| split].
    + rewrite length_app, L1, L2. reflexivity.
    + rewrite C2, C1. simpl. rewrite fold_left_app. reflexivity.
    + unfold nodes_in, ways_in, rels_in in *. simpl.
      eapply stats_adv_eq; [exact (stats_adv_trans _ _ _ _ _ _ _ _ _ A1 A2) | lia | lia | lia].
Qed.

Lemma congM_mod (x y : Z) : congM x y -> x mod 2 ^ 64 = y mod 2 ^ 64.
Proof. intros [k ->]. apply Z_mod_plus_full. Qed.

(** X12: [parse_block] emits one statement per node, dense node, way and
    relation of the block. *)
Theorem parse_block_statement_count (p : Parser f64) (groups : list (Group f64))
    (ss : list Statement) (p' : Parser f64) :
  block p groups = Some (ss, p') -> length ss = list_sum (map (group_size f64) groups).
Proof. intros H. apply (parse_block_inv _ _ _ _ H). Qed.

(** X13: [parse_block] advances the node, way and relation counters (modulo
    2^64) by the number of nodes, ways and relations of the block, and leaves
    the block counter unchanged. *)
Theorem parse_block_stats (p : Parser f64) (groups : list (Group f64))
    (ss : list Statement) (p' : Parser f64) :
  block p groups = Some (ss, p') ->
  node_count p'.(stats) mod 2 ^ 64 = (node_count p.(stats) + Z.of_nat (nodes_in f64 groups)) mod 2 ^ 64 /\
  way_count p'.(stats) mod 2 ^ 64 = (way_count p.(stats) + Z.of_nat (ways_in f64 groups)) mod 2 ^ 64 /\
  rel_count p'.(stats) mod 2 ^ 64 = (rel_count p.(stats) + Z.of_nat (rels_in f64 groups)) mod 2 ^ 64 /\
  p'.(stats).(blocks) = p.(stats).(blocks).
Proof.
  intros H. destruct (parse_block_inv _ _ _ _ H) as (_ & _ & A1 & A2 & A3 & A4).
  split; [apply congM_mod, A1 | split; [apply congM_mod, A2 | split; [apply congM_mod, A3 | exact A4]]].
Qed.

(** X14: after [parse_block] the node cache is the old one updated, in block
    order, with the location of every non-deleted node and dense node. *)
Theorem parse_block_cache (p : Parser f64) (groups : list (Group f64))
    (ss : list Statement) (p' : Parser f64) :
  block p groups = Some (ss, p') ->
  p'.(cache) = fold_left (store_node f64) (concat (map (node_entries f64) groups)) p.(cache).
Proof. intros H. apply (parse_block_inv _ _ _ _ H). Qed.

(** X15: when the geometry calls succeed, [parse_way_geometry] writes
    [osmm:isClosed], then an [osmm:loc] WKT point whose first coordinate
    is [get_x] of the surface point and whose second is [get_y]. The
    coordinate sequence is built from [[lat, lng]] pairs, so [x] holds a
    latitude: when the surface point is a vertex of the way, the point
    lists that node's latitude before its longitude. *)
Theorem way_loc_latitude_first (p : Parser f64) (value : string) (refs : list Z)
    (cs : CoordSeq) (g q : Geometry) (b : bool) (x y : f64) :
  new_vec (map (fun id => lat_lon p.(cache) (id mod 2 ^ 64)) refs) = Ok cs ->
  line_string cs = Ok g -> closed g = Ok b -> surface g = Ok q -> gx q = Ok x -> gy q = Ok y ->
  parse_way_geometry f64 disp CoordSeq Geometry new_vec line_string closed surface gx gy lat_lon
    p value refs =
  Some (push_value (push_value value "osmm:isClosed" (XsdBoolean b)) "osmm:loc"
          (dq +:+ "Point(" +:+ disp x +:+ " " +:+ disp y +:+ ")" +:+ dq +:+ "^^geo:wktLiteral"),
        Ok tt) /\
  (In (x, y) (map (fun id => lat_lon p.(cache) (id mod 2 ^ 64)) refs) ->
   exists id lat lon, In id refs /\ lat_lon p.(cache) (id mod 2 ^ 64) = (lat, lon) /\
     parse_way_geometry f64 disp CoordSeq Geometry new_vec line_string closed surface gx gy lat_lon
       p value refs =
     Some (push_value (push_value value "osmm:isClosed" (XsdBoolean b)) "osmm:loc"
             (dq +:+ "Point(" +:+ disp lat +:+ " " +:+ disp lon +:+ ")" +:+ dq +:+ "^^geo:wktLiteral"),
           Ok tt)).
Proof.
  intros Hv Hl Hc Hs Hx Hy.
  assert (E : parse_way_geometry f64 disp CoordSeq Geometry new_vec line_string closed surface gx gy
                lat_lon p value refs =
              Some (push_value (push_value value "osmm:isClosed" (XsdBoolean b)) "osmm:loc"
                      (dq +:+ "Point(" +:+ disp x +:+ " " +:+ disp y +:+ ")" +:+ dq +:+
                       "^^geo:wktLiteral"), Ok tt)).
  { unfold parse_way_geometry.
    replace (map (fun id => let '(lat, lng) := lat_lon (cache p) (id mod 2 ^ 64) in (lat, lng)) refs)
      with (map (fun id => lat_lon (cache p) (id mod 2 ^ 64)) refs)
      by (apply map_ext; intros a; destruct (lat_lon (cache p) (a mod 2 ^ 64)); reflexivity).
    rewrite Hv, Hl, Hc, Hs, Hy, Hx. reflexivity. }
  split; [exact E |].
  intros Hin. apply in_map_iff in Hin as (id & Hid & Hin).
  exists id, x, y. split; [exact Hin | split; [exact Hid | exact E]].
Qed.

Lemma parse_way_geometry_appends (p : Parser f64) (value : string) (refs : list Z)
    (value' : string) (r : result unit) :
  parse_way_geometry f64 disp CoordSeq Geometry new_vec line_string closed surface gx gy lat_lon
    p value refs = Some (value', r) ->
  exists s, value' = value +:+ s /\
    match r with Ok _ => exists s', s = s' +:+ ";" +:+ nl | Err _ => True end.
Proof.
  unfold parse_way_geometry.
  destruct (new_vec _) as [cs|e]; [| intros H; injection H as <- <-; exists EmptyString;
                                       split; [symmetry; apply str_app_nil_r | exact I]].
  destruct (line_string cs) as [g|e]; [| intros H; injection H as <- <-; exists EmptyString;
                                          split; [symmetry; apply str_app_nil_r | exact I]].
  destruct (closed g) as [b|e]; [| intros H; injection H as <- <-; exists EmptyString;
                                     split; [symmetry; apply str_app_nil_r | exact I]].
  destruct (surface g) as [q|e].
  - destruct (gy q) as [lat|]; [| discriminate]. destruct (gx q) as [lon|]; [| discriminate].
    intros H. injection H as <- <-.
    set (c1 := "osmm:isClosed" +:+ " " +:+ XsdBoolean b +:+ ";" +:+ nl).
    set (c2 := "osmm:loc" +:+ " " +:+ XsdPoint f64 disp lat lon).
    exists (c1 +:+ c2 +:+ ";" +:+ nl). split.
    + unfold push_value, c1, c2. rewrite !str_app_assoc. reflexivity.
    + exists (c1 +:+ c2). rewrite !str_app_assoc. reflexivity.
  - intros H. injection H as <- <-.
    exists ("osmm:isClosed" +:+ " " +:+ XsdBoolean b +:+ ";" +:+ nl). split; [reflexivity | exact I].
Qed.

(** X16: the text of a non-deleted way always has the form
    [head . newline tail ; newline]: the geometry or error clauses are
    written after the statement terminator of the metadata block, and the
    text ends in [;]. *)
Theorem on_way_ends_after_terminator (p : Parser f64) (w : WayElem) (st : Statement) (p' : Parser f64) :
  w.(way_info).(deleted) = false -> way_handler p w = Some (st, p') ->
  exists head tail, st = Create Way w.(way_id) w.(way_info).(milli_timestamp)
                              (head +:+ "." +:+ nl +:+ tail +:+ ";" +:+ nl).
Proof.
  intros Hd. unfold on_way. rewrite Hd.
  unfold push_info, push_metadata.
  destruct (XsdDateTime (milli_timestamp (way_info w))) as [t|]; [| discriminate].
  set (h := pop (pop _)).
  destruct (parse_way_geometry _ _ _ _ _ _ _ _ _ _ _ _ _ _) as [[v r]|] eqn:Hg; [| discriminate].
  apply parse_way_geometry_appends in Hg as (s & -> & Hr).
  intros H. injection H as <- <-. exists h. destruct r as [u|e].
  - destruct Hr as (s' & ->). exists s'. rewrite !str_app_assoc. reflexivity.
  - exists (s +:+ "osmm:loc:error" +:+ " " +:+ XsdStr e). unfold push_value.
    rewrite !str_app_assoc. reflexivity.
Qed.

End BlockProofs.

(** ** Writer: file indices and names *)

Lemma writer_step_file_index (mx : Z) (st : WriterState) (elem : Element) (id ts : Z) (val : string) :
  file_index (writer_step mx st (Create elem id ts val)) =
  match st.(encoder) with
  | Some _ => st.(file_index)
  | None => (st.(file_index) + 1) mod 2 ^ 32
  end.
Proof.
  unfold writer_step. destruct (encoder st) as [[i c]|]; simpl; destruct (mx <? _); reflexivity.
Qed.

Definition indices_ok (st : WriterState) : Prop :=
  map fst (data_files st) = map Z.of_nat (seq 0 (length (data_files st))) /\
  st.(file_index) = Z.of_nat (length (data_files st)).

Lemma seq_snoc (n : nat) : seq 0 (S n) = seq 0 n ++ [n].
Proof. rewrite seq_S. reflexivity. Qed.

Lemma fold_writer_indices (mx : Z) (sts : list Statement) (st : WriterState) :
  indices_ok st ->
  Z.of_nat (length (data_files st) + length (create_ts sts)) < 2 ^ 32 ->
  indices_ok (fold_left (writer_step mx) sts st) /\
  (length (data_files (fold_left (writer_step mx) sts st)) <=
   length (data_files st) + length (create_ts sts))%nat.
Proof.
  revert st. induction sts as [|v sts IH]; intros st [Hm Hi] Hb; cbn [fold_left].
  - split; [split; assumption | simpl; lia].
  - destruct v as [| |elem id ts val]; cbn [create_ts length] in Hb |- *;
      try (apply IH; [split; assumption | exact Hb]).
    assert (Hst : indices_ok (writer_step mx st (Create elem id ts val)) /\
                  (length (data_files (writer_step mx st (Create elem id ts val))) <=
                   S (length (data_files st)))%nat).
    { unfold indices_ok. rewrite data_files_step_create, writer_step_file_index.
      unfold data_files in Hm, Hi, Hb |- *.
      destruct (encoder st) as [[i c]|].
      - rewrite !map_app, !length_app in *. simpl in *. split; [split |]; [exact Hm | exact Hi | lia].
      - rewrite app_nil_r in Hm, Hi. rewrite map_app, length_app. simpl.
        rewrite Nat.add_1_r, seq_snoc, map_app, Hm, Hi. split; [split |].
        + reflexivity.
        + rewrite app_nil_r in Hb. rewrite Z.mod_small by lia. lia.
        + rewrite app_nil_r. lia. }
    destruct Hst as [Hok Hlen].
    destruct (IH _ Hok) as [Hok' Hlen']; [lia |].
    split; [exact Hok' | lia].
Qed.

Lemma create_ts_le (sts : list Statement) : (length (create_ts sts) <= length sts)%nat.
Proof. induction sts as [|[| |] sts IH]; simpl; lia. Qed.

Lemma gz_file_name_nat_inj (a b : nat) : gz_file_name (Z.of_nat a) = gz_file_name (Z.of_nat b) -> a = b.
Proof. intros H. apply Nat2Z.inj. apply gz_file_name_injective; [lia | lia | exact H]. Qed.

Lemma NoDup_map_inj {A B : Type} (f : A -> B) (l : list A) :
  (forall a b, f a = f b -> a = b) -> NoDup l -> NoDup (map f l).
Proof.
  intros Hf Hl. induction Hl as [|x l Hx Hl IH]; simpl; constructor; [| exact IH].
  intros Hin. rewrite list_elem_of_In in Hin. apply in_map_iff in Hin as (y & Hy & Hin). rewrite <- list_elem_of_In in Hin. apply Hf in Hy. subst. contradiction.
Qed.

(** X17: with fewer than 2^32 [Create] statements the writer numbers its
    data files 0, 1, 2, ... in order, and their file names are pairwise
    distinct. *)
Theorem writer_run_file_names (mx : Z) (sts : list Statement) :
  Z.of_nat (length (create_ts sts)) < 2 ^ 32 ->
  map fst (fst (writer_run mx sts)) = map Z.of_nat (seq 0 (length (fst (writer_run mx sts)))) /\
  NoDup (map (fun f => gz_file_name (fst f)) (fst (writer_run mx sts))).
Proof.
  intros Hb.
  destruct (fold_writer_indices mx sts writer_init) as [[Hm Hi] _]; [split; reflexivity | simpl; exact Hb |].
  unfold writer_run. fold (writer_stream mx sts) in Hm, Hi |- *.
  destruct (trailer (oldest_ts (writer_stream mx sts))) as [text panicked]. simpl.
  assert (Hfiles : map fst (data_files (writer_stream mx sts) ++ [(file_index (writer_stream mx sts), text)]) =
                   map Z.of_nat (seq 0 (length (data_files (writer_stream mx sts) ++
                                                 [(file_index (writer_stream mx sts), text)])))).
  { rewrite map_app, Hm, Hi, length_app. simpl. rewrite Nat.add_1_r, seq_snoc, map_app. reflexivity. }
  split; [exact Hfiles |].
  rewrite <- (map_map fst gz_file_name), Hfiles, map_map.
  apply NoDup_map_inj; [exact gz_file_name_nat_inj | apply NoDup_seq].
Qed.

(** ** Writer: rotation by size *)

Fixpoint creates (sts : list Statement) : list (Element * Z * string) :=
  match sts with
  | [] => []
  | Create elem id _ val :: r => (elem, id, val) :: creates r
  | _ :: r => creates r
  end.

Definition val_len (x : Element * Z * string) : Z := Z.of_nat (String.length (snd x)).
Definition sum_len (g : list (Element * Z * string)) : Z := fold_right (fun x n => val_len x + n) 0 g.
Definition group_text (g : list (Element * Z * string)) : string :=
  concat_str (map (fun '(e, i, v) => create_block e i v) g).

Definition rotated (mx : Z) (g : list (Element * Z * string)) : Prop :=
  g <> [] /\ sum_len (removelast g) <= mx /\ mx < sum_len g.

Definition rot_inv (mx : Z) (st : WriterState) (fin : list (list (Element * Z * string)))
    (cur : list (Element * Z * string)) : Prop :=
  map snd st.(finished) = map group_text fin /\ Forall (rotated mx) fin /\
  match st.(encoder) with
  | None => cur = [] /\ st.(size) = 0
  | Some (_, c) => c = group_text cur /\ cur <> [] /\ st.(size) = sum_len cur /\ sum_len cur <= mx
  end.

Lemma sum_len_app (a b : list (Element * Z * string)) : sum_len (a ++ b) = sum_len a + sum_len b.
Proof. induction a as [|x a IH]; simpl; [reflexivity |]. unfold sum_len in *. simpl. lia. Qed.

Lemma sum_len_cons (x : Element * Z * string) (l : list (Element * Z * string)) :
  sum_len (x :: l) = val_len x + sum_len l.
Proof. reflexivity. Qed.

Lemma sum_len_nonneg (a : list (Element * Z * string)) : 0 <= sum_len a.
Proof. induction a as [|x a IH]; [simpl; lia |]. unfold sum_len, val_len in *. simpl. lia. Qed.

Lemma group_text_app (a b : list (Element * Z * string)) :
  group_text (a ++ b) = group_text a +:+ group_text b.
Proof. unfold group_text. rewrite map_app, concat_str_app. reflexivity. Qed.

Lemma group_text_one (e : Element) (i : Z) (v : string) :
  group_text [(e, i, v)] = create_block e i v.
Proof. unfold group_text, concat_str. simpl. apply str_app_nil_r. Qed.

Lemma removelast_snoc {A : Type} (l : list A) (x : A) : removelast (l ++ [x]) = l.
Proof. induction l as [|y l IH]; [reflexivity |]. simpl. rewrite IH. destruct l; reflexivity. Qed.

Lemma fold_writer_rotation (mx : Z) (sts : list Statement) (st : WriterState)
    (fin : list (list (Element * Z * string))) (cur : list (Element * Z * string)) :
  0 <= mx -> rot_inv mx st fin cur ->
  sum_len (concat fin ++ cur) + sum_len (creates sts) < 2 ^ 64 ->
  exists fin' cur', rot_inv mx (fold_left (writer_step mx) sts st) fin' cur' /\
    concat fin' ++ cur' = concat fin ++ cur ++ creates sts.
Proof.
  intros Hmx. revert st fin cur.
  induction sts as [|v sts IH]; intros st fin cur Hinv Hb; cbn [fold_left].
  - exists fin, cur. split; [exact Hinv | rewrite !app_nil_r; reflexivity].
  - destruct v as [| |elem id ts val]; cbn [creates] in Hb |- *; try (apply IH; assumption).
    destruct Hinv as (Hf & Hrot & He).
    set (x := (elem, id, val)).
    assert (Hx : sum_len [x] = Z.of_nat (String.length val))
      by (unfold sum_len, val_len; simpl; lia).
    assert (Hstep : exists fin1 cur1,
               rot_inv mx (writer_step mx st (Create elem id ts val)) fin1 cur1 /\
               concat fin1 ++ cur1 = concat fin ++ cur ++ [x]).
    { unfold writer_step. destruct (encoder st) as [[i c]|] eqn:Henc.
      - destruct He as (-> & Hne & Hsz & Hle).
        assert (Hsum : (size st + Z.of_nat (String.length val)) mod 2 ^ 64 = sum_len (cur ++ [x])).
        { rewrite Hsz, sum_len_app, Hx. apply Z.mod_small. split.
          - pose proof (sum_len_nonneg cur). lia.
          - rewrite !sum_len_app, sum_len_cons in Hb.
            assert (Hv : val_len x = Z.of_nat (String.length val)) by reflexivity.
            assert (Hv' : val_len (elem, id, val) = Z.of_nat (String.length val)) by reflexivity.
            pose proof (sum_len_nonneg (concat fin)). pose proof (sum_len_nonneg (creates sts)).
            lia. }
        simpl. rewrite Hsum. destruct (mx <? sum_len (cur ++ [x])) eqn:Hlt.
        + exists (fin ++ [cur ++ [x]]), []. split.
          * split; [| split].
            -- simpl. rewrite !map_app, Hf. simpl. rewrite group_text_app. unfold x. rewrite group_text_one. reflexivity.
            -- apply Forall_app. split; [exact Hrot |]. constructor; [| constructor].
               split; [destruct cur; discriminate |]. rewrite removelast_snoc.
               split; [exact Hle | apply Z.ltb_lt, Hlt].
            -- simpl. split; reflexivity.
          * rewrite concat_app. simpl. rewrite !app_nil_r, app_assoc. reflexivity.
        + exists fin, (cur ++ [x]). split.
          * split; [exact Hf | split; [exact Hrot |]]. simpl.
            split; [rewrite group_text_app; unfold x; rewrite group_text_one; reflexivity |].
            split; [destruct cur; discriminate |]. split; [reflexivity |].
            apply Z.ltb_ge, Hlt.
          * reflexivity.
      - destruct He as (-> & Hsz).
        assert (Hsum : (size st + Z.of_nat (String.length val)) mod 2 ^ 64 = sum_len [x]).
        { rewrite Hsz, Hx. apply Z.mod_small. rewrite !sum_len_app, sum_len_cons in Hb.
          assert (Hv : val_len x = Z.of_nat (String.length val)) by reflexivity.
            assert (Hv' : val_len (elem, id, val) = Z.of_nat (String.length val)) by reflexivity.
          pose proof (sum_len_nonneg (concat fin)). pose proof (sum_len_nonneg (creates sts)).
          simpl in Hb. lia. }
        simpl. rewrite Hsum. destruct (mx <? sum_len [x]) eqn:Hlt.
        + exists (fin ++ [[x]]), []. split.
          * split; [| split].
            -- simpl. rewrite !map_app, Hf. simpl. unfold x; rewrite str_app_nil_l, group_text_one. reflexivity.
            -- apply Forall_app. split; [exact Hrot |]. constructor; [| constructor].
               split; [discriminate |]. simpl.
               apply Z.ltb_lt in Hlt. split; [exact Hmx | exact Hlt].
            -- simpl. split; reflexivity.
          * rewrite concat_app. simpl. rewrite !app_nil_r. reflexivity.
        + exists fin, [x]. split.
          * split; [exact Hf | split; [exact Hrot |]]. simpl.
            split; [unfold x; rewrite str_app_nil_l, group_text_one; reflexivity |].
            split; [discriminate |]. split; [reflexivity |]. apply Z.ltb_ge, Hlt.
          * reflexivity. }
    destruct Hstep as (fin1 & cur1 & Hinv1 & Hc1).
    destruct (IH _ fin1 cur1 Hinv1) as (fin' & cur' & Hinv' & Hc').
    + rewrite Hc1, !sum_len_app. rewrite !sum_len_app, sum_len_cons in Hb.
      rewrite Hx. assert (Hv : val_len x = Z.of_nat (String.length val)) by reflexivity.
            assert (Hv' : val_len (elem, id, val) = Z.of_nat (String.length val)) by reflexivity. lia.
    + exists fin', cur'. split; [exact Hinv' |]. rewrite Hc', app_assoc, Hc1, <- !app_assoc. reflexivity.
Qed.

Lemma sum_len_removelast (l : list (Element * Z * string)) : sum_len (removelast l) <= sum_len l.
Proof.
  destruct l as [|x l] using rev_ind; [simpl; lia |].
  rewrite removelast_snoc, sum_len_app, sum_len_cons.
  assert (0 <= val_len x) by (unfold val_len; lia). simpl. lia.
Qed.

Lemma Forall_removelast {A : Type} (P : A -> Prop) (l : list A) : Forall P l -> Forall P (removelast l).
Proof.
  induction l as [|x l IH]; intros H; [constructor |]. inversion H as [|? ? Hx Hl]; subst.
  simpl. destruct l; [constructor | constructor; [exact Hx | apply IH, Hl]].
Qed.

(** X18: the data files of the writer hold the [Create] values in order,
    cut into non-empty groups; a group holds at most [max_file_size] bytes
    before its last value, and every group but the last exceeds
    [max_file_size]. *)
Theorem writer_rotation (mx : Z) (sts : list Statement) :
  0 <= mx -> sum_len (creates sts) < 2 ^ 64 ->
  exists groups,
    concat groups = creates sts /\
    map snd (data_files (writer_stream mx sts)) = map group_text groups /\
    Forall (fun g => g <> [] /\ sum_len (removelast g) <= mx) groups /\
    Forall (fun g => mx < sum_len g) (removelast groups).
Proof.
  intros Hmx Hb.
  destruct (fold_writer_rotation mx sts writer_init [] [] Hmx) as (fin & cur & (Hf & Hrot & He) & Hc).
  - split; [reflexivity | split; [constructor | split; reflexivity]].
  - exact Hb.
  - fold (writer_stream mx sts) in Hf, Hrot, He.
    simpl in Hc.
    assert (Hrot' : Forall (fun g => g <> [] /\ sum_len (removelast g) <= mx) fin)
      by (eapply Forall_impl; [exact Hrot | intros g (H1 & H2 & _); auto]).
    unfold data_files. destruct (encoder (writer_stream mx sts)) as [[i c]|].
    + destruct He as (-> & Hne & _ & Hle). exists (fin ++ [cur]). split; [| split; [| split]].
      * rewrite concat_app. simpl. rewrite app_nil_r. exact Hc.
      * rewrite !map_app, Hf. reflexivity.
      * apply Forall_app. split; [exact Hrot' |]. constructor; [| constructor].
        split; [exact Hne |]. pose proof (sum_len_removelast cur). lia.
      * rewrite removelast_snoc. eapply Forall_impl; [exact Hrot | intros g (_ & _ & H); exact H].
    + destruct He as (-> & _). exists fin. split; [| split; [| split]].
      * rewrite app_nil_r in Hc. exact Hc.
      * rewrite app_nil_r. exact Hf.
      * exact Hrot'.
      * apply Forall_removelast. eapply Forall_impl; [exact Hrot | intros g (_ & _ & H); exact H].
Qed.

(* ------------------------------------------------------------------ *)
(** ** Instances of the properties *)

(** A stand-in for the geos calls on coordinates kept as text: a
    coordinate sequence is the list of points, a line string needs two
    points, and the point on the surface is the first vertex. *)
Definition ex_new_vec (l : list (string * string)) : result (list (string * string)) := Ok l.
Definition ex_line_string (l : list (string * string)) : result (list (string * string)) :=
  match l with
  | _ :: _ :: _ => Ok l
  | _ => Err "IllegalArgumentException: point array must contain 0 or >1 elements"
  end.
Definition ex_is_closed (g : list (string * string)) : result bool :=
  Ok (match g, rev g with x :: _, y :: _ => if decide (x = y) then true else false | _, _ => false end).
Definition ex_surface (g : list (string * string)) : result (list (string * string)) :=
  match g with x :: _ => Ok [x] | [] => Err "empty geometry" end.
Definition ex_get_x (g : list (string * string)) : result string :=
  match g with (x, _) :: _ => Ok x | [] => Err "empty geometry" end.
Definition ex_get_y (g : list (string * string)) : result string :=
  match g with (_, y) :: _ => Ok y | [] => Err "empty geometry" end.
Definition ex_lat_lon (c : gmap Z (string * string)) (id : Z) : string * string :=
  match c !! id with Some v => v | None => ("0", "0") end.

Definition ex_parse_block :=
  parse_block string (fun s => s) (list (string * string)) (list (string * string))
    ex_new_vec ex_line_string ex_is_closed ex_surface ex_get_x ex_get_y ex_lat_lon.
Definition ex_parse_way_geometry :=
  parse_way_geometry string (fun s => s) (list (string * string)) (list (string * string))
    ex_new_vec ex_line_string ex_is_closed ex_surface ex_get_x ex_get_y ex_lat_lon.
Definition ex_on_way :=
  on_way string (fun s => s) (list (string * string)) (list (string * string))
    ex_new_vec ex_line_string ex_is_closed ex_surface ex_get_x ex_get_y ex_lat_lon.

Definition ex_info : Info := mkInfo false 1 "mapper" 1500 7.
Definition ex_way : WayElem := mkWay 9 [("highway", "path")] ex_info [5; 6].
Definition ex_group : Group string :=
  mkGroup string [mkNode string 5 [("name", "A")] "48.1" "11.5" ex_info]
    [mkDenseNode string 6 [] "48.2" "11.6" ex_info] [ex_way]
    [mkRelation 3 [] (mkInfo true 1 "mapper" 0 7) []].
Definition ex_parser : Parser string := mkParser stats_default ∅.
Definition ex_way_parser : Parser string := mkParser stats_default {[5 := ("48.1", "11.5")]}.

Definition ex_sts : list Statement :=
  [Create Node 1 5 "ab"; Skip; Create Way 2 9 "cd"; Delete Relation 4; Create Way 3 2 "e"].

Lemma to_utc_spec_witness : to_utc (-1500) = None /\ to_utc (-2000) = Some (mkDateTime (-2) 0).
Proof.
  split; [rewrite (to_utc_spec (-1500) ltac:(lia)) | rewrite (to_utc_spec (-2000) ltac:(lia))];
    reflexivity.
Defined.

Lemma xsd_datetime_fraction_witness :
  exists base, XsdDateTime 1500 =
    Some (dq +:+ base +:+ ("." +:+ "000000" +:+ pad_dec 3 500) +:+ " UTC" +:+ dq +:+ "^^xsd:dateTime").
Proof.
  destruct (xsd_datetime_fraction 1500 ltac:(lia)) as (base & _ & H).
  exists base. rewrite H. reflexivity.
Defined.

Lemma push_tag_wikipedia_witness :
  push_tag EmptyString "wikipedia" ("en" +:+ ":" +:+ "Foo bar") =
  EmptyString +:+ "osmt:" +:+ "wikipedia" +:+ " <https://" +:+ "en" +:+ ".wikipedia.org/wiki/" +:+
    utf8_percent_encode (replace_space "Foo bar") +:+ ">;" +:+ nl.
Proof.
  exact (proj1 (push_tag_wikipedia EmptyString "wikipedia" eq_refl eq_refl eq_refl) "en" "Foo bar"
           ltac:(discriminate) eq_refl ltac:(discriminate) eq_refl).
Defined.

Lemma push_tag_wikipedia_semicolon_collision_witness :
  push_tag EmptyString "de:wikipedia" ("de" +:+ ":" +:+ "A" +:+ ";" +:+ "B") =
  push_tag EmptyString "de:wikipedia" ("de" +:+ ":" +:+ "A" +:+ "%3B" +:+ "B").
Proof.
  exact (push_tag_wikipedia_semicolon_collision EmptyString "de:wikipedia" "de" "A" "B"
           eq_refl eq_refl eq_refl ltac:(discriminate) eq_refl eq_refl eq_refl).
Defined.

Lemma push_tag_wikidata_list_ids_witness :
  exists ids, (2 <= length ids)%nat /\ Forall (fun i => RE_WIKIDATA_VALUE i = true) ids /\
    push_tag EmptyString "wikidata" "Q1; Q42" =
    EmptyString +:+ "osmt:" +:+ "wikidata" +:+ " " +:+ join "," (map (fun i => "wd:" +:+ i) ids) +:+
      ";" +:+ nl.
Proof. exact (push_tag_wikidata_list_ids EmptyString "wikidata" "Q1; Q42" eq_refl eq_refl eq_refl). Defined.

Lemma XsdRelMember_injective_witness :
  member_type (mkRelMember 7 MWay "outer") = member_type (mkRelMember 7 MWay "inner") /\
  member_id (mkRelMember 7 MWay "outer") = member_id (mkRelMember 7 MWay "inner").
Proof. exact (XsdRelMember_injective (mkRelMember 7 MWay "outer") (mkRelMember 7 MWay "inner") eq_refl). Defined.

Lemma parse_block_statement_count_witness :
  match ex_parse_block ex_parser [ex_group] with
  | Some (ss, p') => length ss = list_sum (map (group_size string) [ex_group])
  | None => False
  end.
Proof.
  destruct (ex_parse_block ex_parser [ex_group]) as [[ss p']|] eqn:H.
  - exact (parse_block_statement_count string (fun s => s) (list (string * string))
             (list (string * string)) ex_new_vec ex_line_string ex_is_closed ex_surface ex_get_x
             ex_get_y ex_lat_lon ex_parser [ex_group] ss p' H).
  - vm_compute in H. discriminate.
Defined.

Lemma parse_block_stats_witness :
  match ex_parse_block ex_parser [ex_group] with
  | Some (ss, p') =>
      node_count p'.(stats) mod 2 ^ 64 =
        (node_count ex_parser.(stats) + Z.of_nat (nodes_in string [ex_group])) mod 2 ^ 64 /\
      way_count p'.(stats) mod 2 ^ 64 =
        (way_count ex_parser.(stats) + Z.of_nat (ways_in string [ex_group])) mod 2 ^ 64 /\
      rel_count p'.(stats) mod 2 ^ 64 =
        (rel_count ex_parser.(stats) + Z.of_nat (rels_in string [ex_group])) mod 2 ^ 64 /\
      p'.(stats).(blocks) = ex_parser.(stats).(blocks)
  | None => False
  end.
Proof.
  destruct (ex_parse_block ex_parser [ex_group]) as [[ss p']|] eqn:H.
  - exact (parse_block_stats string (fun s => s) (list (string * string))
             (list (string * string)) ex_new_vec ex_line_string ex_is_closed ex_surface ex_get_x
             ex_get_y ex_lat_lon ex_parser [ex_group] ss p' H).
  - vm_compute in H. discriminate.
Defined.

Lemma parse_block_cache_witness :
  match ex_parse_block ex_parser [ex_group] with
  | Some (ss, p') =>
      p'.(cache) = fold_left (store_node string) (concat (map (node_entries string) [ex_group]))
                     ex_parser.(cache)
  | None => False
  end.
Proof.
  destruct (ex_parse_block ex_parser [ex_group]) as [[ss p']|] eqn:H.
  - exact (parse_block_cache string (fun s => s) (list (string * string))
             (list (string * string)) ex_new_vec ex_line_string ex_is_closed ex_surface ex_get_x
             ex_get_y ex_lat_lon ex_parser [ex_group] ss p' H).
  - vm_compute in H. discriminate.
Defined.

Lemma way_loc_latitude_first_witness :
  ex_parse_way_geometry ex_way_parser EmptyString [5; 6] =
    Some (push_value (push_value EmptyString "osmm:isClosed" (XsdBoolean false)) "osmm:loc"
            (dq +:+ "Point(" +:+ "48.1" +:+ " " +:+ "11.5" +:+ ")" +:+ dq +:+ "^^geo:wktLiteral"),
          Ok tt) /\
  exists id lat lon, In id [5; 6] /\ ex_lat_lon ex_way_parser.(cache) (id mod 2 ^ 64) = (lat, lon) /\
    ex_parse_way_geometry ex_way_parser EmptyString [5; 6] =
    Some (push_value (push_value EmptyString "osmm:isClosed" (XsdBoolean false)) "osmm:loc"
            (dq +:+ "Point(" +:+ lat +:+ " " +:+ lon +:+ ")" +:+ dq +:+ "^^geo:wktLiteral"),
          Ok tt).
Proof.
  destruct (way_loc_latitude_first string (fun s => s) (list (string * string))
              (list (string * string)) ex_new_vec ex_line_string ex_is_closed ex_surface ex_get_x
              ex_get_y ex_lat_lon ex_way_parser EmptyString [5; 6]
              [("48.1", "11.5"); ("0", "0")] [("48.1", "11.5"); ("0", "0")] [("48.1", "11.5")]
              false "48.1" "11.5" eq_refl eq_refl eq_refl eq_refl eq_refl eq_refl) as [H1 H2].
  split; [exact H1 |]. apply H2. vm_compute. left. reflexivity.
Defined.

Lemma on_way_ends_after_terminator_witness :
  match ex_on_way ex_parser ex_way with
  | Some (st, p') => exists head tail, st = Create Way 9 1500 (head +:+ "." +:+ nl +:+ tail +:+ ";" +:+ nl)
  | None => False
  end.
Proof.
  destruct (ex_on_way ex_parser ex_way) as [[st p']|] eqn:H.
  - exact (on_way_ends_after_terminator string (fun s => s) (list (string * string))
             (list (string * string)) ex_new_vec ex_line_string ex_is_closed ex_surface ex_get_x
             ex_get_y ex_lat_lon ex_parser ex_way st p' eq_refl H).
  - vm_compute in H. discriminate.
Defined.

Lemma writer_run_file_names_witness :
  map fst (fst (writer_run 3 ex_sts)) = map Z.of_nat (seq 0 (length (fst (writer_run 3 ex_sts)))) /\
  NoDup (map (fun f => gz_file_name (fst f)) (fst (writer_run 3 ex_sts))).
Proof. exact (writer_run_file_names 3 ex_sts eq_refl). Defined.

Lemma writer_rotation_witness :
  exists groups,
    concat groups = creates ex_sts /\
    map snd (data_files (writer_stream 3 ex_sts)) = map group_text groups /\
    Forall (fun g => g <> [] /\ sum_len (removelast g) <= 3) groups /\
    Forall (fun g => 3 < sum_len g) (removelast groups).
Proof. exact (writer_rotation 3 ex_sts ltac:(lia) eq_refl). Defined.
